(** * helm-migrate-release: moving Helm release records between storage drivers

    A shallow embedding of [main.go].  The program is a sequential script over
    two external SDKs (the Helm action/storage packages and the Kubernetes
    client).  The SDK calls are taken as an interface, [Cluster]; the program
    itself is written in a small state-and-output monad over it, so that every
    external call and every line the program's own print statements write
    shows up, in order, in a trace. *)

From Stdlib Require Import List String Ascii ZArith Bool Lia DecimalString.
Import ListNotations.
Local Open Scope string_scope.
Local Open Scope Z_scope.

(** ** Data *)

(** A non-nil Go [error], identified with its message; [option error] is a Go
    [error] value, [None] being [nil]. *)
Definition error := string.

(** The fields of a Helm [release.Release] the program reads. *)
Record Release := mkRelease {
  Name : string;
  Namespace : string;
  Version : Z
}.

(** The package-level flag variables. *)
Record Flags := mkFlags {
  kubeconfig : string;
  to : string;
  namespace : string;
  maxHist : Z
}.

(** [*kubernetes.Clientset], known by the kubeconfig it was built from. *)
Record Clientset := mkClientset {
  clientKubeconfig : string
}.

(** [*action.Configuration], known by the arguments of its [Init]. *)
Record ActionCfg := mkActionCfg {
  cfgKubeconfig : string;
  cfgNamespace : string;
  cfgDriver : string
}.

Record Migrator := mkMigrator {
  clientset : Clientset;
  actionCfg : ActionCfg
}.

(** The two target drivers of [migrateRelease]'s switch. *)
Inductive ResourceKind := ConfigMaps | Secrets.

(** [*storage.Storage] over [clientset.CoreV1().ConfigMaps(ns)] or
    [clientset.CoreV1().Secrets(ns)]. *)
Record Storage := mkStorage {
  storageClient : Clientset;
  storageKind : ResourceKind;
  storageNamespace : string
}.

(** What the program does to the outside, in the order it does it: the lines
    its own [fmt.Print*] statements write to standard output, and its calls
    into the SDKs.  What an SDK writes while a call runs is not an event of
    its own. *)
Inductive Event :=
| Stdout (s : string)
| HistoryRun (cfg : ActionCfg) (releaseName : string) (max : Z)
| ListRun (cfg : ActionCfg) (allNamespaces : bool)
| StorageCreate (st : Storage) (r : Release) (err : option error)
| ReleasesDelete (cfg : ActionCfg) (releaseName : string) (version : Z)
    (err : option error).

(** ** The external SDKs

    Each call takes the state of the outside world and returns the new state
    with the call's Go results; a pair [(value, err)] is a sum, since the
    program reads the value only when [err == nil].  The closure [main.go]
    hands to [cfg.Init] prints the SDK's debug lines on standard output; the
    SDK calls it from within later calls through the configuration, so those
    lines belong to the call: a [Stdout] event is always a line of the
    program's own. *)
Record Cluster := mkCluster {
  World : Type;
  BuildConfigFromFlags : string -> World -> World * option error;
  NewForConfig : string -> World -> World * (error + Clientset);
  cfgInit : ActionCfg -> World -> World * option error;
  historyRun : ActionCfg -> string -> Z -> World -> World * (error + list Release);
  listRun : ActionCfg -> bool -> World -> World * (error + list Release);
  storageCreate : Storage -> Release -> World -> World * option error;
  releasesDelete : ActionCfg -> string -> Z -> World -> World * option error
}.

(** ** Formatting *)

Definition nl : string := String (ascii_of_nat 10) EmptyString.

(** [%d] of a Go [int]. *)
Definition fmt_d (z : Z) : string := NilZero.string_of_int (Z.to_int z).

(** [fmt.Println] of one string or error. *)
Definition Println (s : string) : Event := Stdout (s ++ nl).

Definition arg (i : nat) (args : list string) : string := nth i args "".

(** The switch on [to] at the head of [migrateRelease]. *)
Definition helmStorage (m : Migrator) (to namespace : string) : error + Storage :=
  if (to =? "configmap")%string || (to =? "configmaps")%string then
    inr (mkStorage (clientset m) ConfigMaps namespace)
  else if (to =? "secret")%string || (to =? "secrets")%string then
    inr (mkStorage (clientset m) Secrets namespace)
  else inl ("unknown resource type " ++ to).

(** ** The program *)

Section Program.

Variable K : Cluster.

Definition M (A : Type) : Type := World K -> A * World K * list Event.

Definition ret {A} (a : A) : M A := fun w => (a, w, []).

Definition bind {A B} (m : M A) (f : A -> M B) : M B :=
  fun w =>
    let '(a, w1, t1) := m w in
    let '(b, w2, t2) := f a w1 in
    (b, w2, (t1 ++ t2)%list).

Definition emit (e : Event) : M unit := fun w => (tt, w, [e]).

(** An SDK call, recorded by the event [ev] builds from its result. *)
Definition call {A} (f : World K -> World K * A) (ev : A -> list Event) : M A :=
  fun w => let '(w1, a) := f w in (a, w1, ev a).

Notation "x <- m ;; k" := (bind m (fun x => k))
  (at level 61, m at next level, right associativity).
Notation "m ;;; k" := (bind m (fun _ => k))
  (at level 61, right associativity).

Definition value {A} (r : A * World K * list Event) : A := fst (fst r).
Definition world {A} (r : A * World K * list Event) : World K := snd (fst r).
Definition trace {A} (r : A * World K * list Event) : list Event := snd r.

(** The three steps of [NewMigrator], each with its early return.  The
    configuration is known by the arguments of [cfg.Init]; the fourth, the
    debug-log closure, is the same in every run (see [Cluster]). *)
Definition NewMigrator (kubeconfig namespace helmDriver : string)
  : M (error + Migrator) :=
  err <- call (BuildConfigFromFlags K kubeconfig) (fun _ => []) ;;
  match err with
  | Some e => ret (inl e)
  | None =>
    cs <- call (NewForConfig K kubeconfig) (fun _ => []) ;;
    match cs with
    | inl e => ret (inl e)
    | inr clientset =>
      let cfg := mkActionCfg kubeconfig namespace helmDriver in
      err <- call (cfgInit K cfg) (fun _ => []) ;;
      match err with
      | Some e => ret (inl e)
      | None => ret (inr (mkMigrator clientset cfg))
      end
    end
  end.

(** The body of the [for _, release := range hist] loop, with the rest of the
    range; [failed] is the flag of the same name. *)
Fixpoint migrateRevisions (m : Migrator) (st : Storage) (releaseName : string)
    (hist : list Release) (failed : bool) : M bool :=
  match hist with
  | [] => ret failed
  | release :: rest =>
    err <- call (storageCreate K st release)
                (fun err => [StorageCreate st release err]) ;;
    match err with
    | Some e =>
      emit (Stdout ("failed to migrate release " ++ releaseName ++ " version "
                    ++ fmt_d (Version release) ++ ",: " ++ e ++ nl)) ;;;
      migrateRevisions m st releaseName rest true
    | None =>
      err <- call (releasesDelete K (actionCfg m) releaseName (Version release))
                  (fun err => [ReleasesDelete (actionCfg m) releaseName
                                 (Version release) err]) ;;
      match err with
      | Some e =>
        emit (Stdout ("failed to delete release " ++ releaseName ++ " version "
                      ++ fmt_d (Version release) ++ ": " ++ e ++ nl)) ;;;
        migrateRevisions m st releaseName rest true
      | None =>
        emit (Stdout ("migrated release " ++ releaseName ++ " version "
                      ++ fmt_d (Version release) ++ nl)) ;;;
        migrateRevisions m st releaseName rest failed
      end
    end
  end.

Definition migrateRelease (fl : Flags) (m : Migrator)
    (releaseName namespace : string) : M (option error) :=
  match helmStorage m (to fl) namespace with
  | inl e => ret (Some e)
  | inr st =>
    hist <- call (historyRun K (actionCfg m) releaseName (maxHist fl))
                 (fun _ => [HistoryRun (actionCfg m) releaseName (maxHist fl)]) ;;
    match hist with
    | inl e => ret (Some e)
    | inr hist =>
      failed <- migrateRevisions m st releaseName hist false ;;
      if failed then ret (Some ("failed to migrate release " ++ releaseName))
      else ret None
    end
  end.

(** The loop of [migrateNamespace]. *)
Fixpoint migrateNamespaceLoop (fl : Flags) (m : Migrator) (namespace : string)
    (releases : list Release) : M unit :=
  match releases with
  | [] => ret tt
  | release :: rest =>
    (if (Namespace release =? namespace)%string then
       err <- migrateRelease fl m (Name release) namespace ;;
       match err with
       | Some e => emit (Println e)
       | None => ret tt
       end
     else ret tt) ;;;
    migrateNamespaceLoop fl m namespace rest
  end.

Definition migrateNamespace (fl : Flags) (m : Migrator) (namespace : string)
  : M (option error) :=
  releases <- call (listRun K (actionCfg m) false)
                   (fun _ => [ListRun (actionCfg m) false]) ;;
  match releases with
  | inl e => ret (Some e)
  | inr releases =>
    migrateNamespaceLoop fl m namespace releases ;;; ret None
  end.

(** The loop of [migrateAll]. *)
Fixpoint migrateAllLoop (fl : Flags) (m : Migrator) (releases : list Release)
  : M unit :=
  match releases with
  | [] => ret tt
  | release :: rest =>
    (err <- migrateRelease fl m (Name release) (Namespace release) ;;
     match err with
     | Some e => emit (Println e)
     | None => ret tt
     end) ;;;
    migrateAllLoop fl m rest
  end.

Definition migrateAll (fl : Flags) (m : Migrator) : M (option error) :=
  releases <- call (listRun K (actionCfg m) true)
                   (fun _ => [ListRun (actionCfg m) true]) ;;
  match releases with
  | inl e => ret (Some e)
  | inr releases => migrateAllLoop fl m releases ;;; ret None
  end.

(** The end of [main]: the last [if err != nil]. *)
Definition exitWith (err : option error) : M Z :=
  match err with
  | Some e => emit (Println e) ;;; ret 1
  | None => ret 0
  end.

(** [main] after [flag.Parse]: [fl] holds the parsed flags, [args] the
    remaining arguments, [helmDriver] is [$HELM_DRIVER]; the value is the exit
    code of the process. *)
Definition main (fl : Flags) (args : list string) (helmDriver : string) : M Z :=
  let subcommands := arg 0 args in
  if (subcommands =? "")%string then
    emit (Println "subprogram is required") ;;; ret 1
  else
    r <- NewMigrator (kubeconfig fl) (namespace fl) helmDriver ;;
    match r with
    | inl e => emit (Println e) ;;; ret 1
    | inr migrator =>
      if (subcommands =? "release")%string then
        let releaseName := arg 1 args in
        if (releaseName =? "")%string then
          emit (Println "release name is required") ;;; ret 1
        else
          err <- migrateRelease fl migrator releaseName (namespace fl) ;;
          exitWith err
      else if (subcommands =? "namespace")%string then
        err <- migrateNamespace fl migrator (namespace fl) ;;
        exitWith err
      else if (subcommands =? "all")%string then
        err <- migrateAll fl migrator ;;
        exitWith err
      else exitWith (Some ("unknown subprogram " ++ subcommands))
    end.

End Program.

Arguments value {K A} r.
Arguments world {K A} r.
Arguments trace {K A} r.

(** ** Reading a trace *)

(** A create or a delete that returned an error. *)
Definition failure (ev : Event) : bool :=
  match ev with
  | StorageCreate _ _ (Some _) => true
  | ReleasesDelete _ _ _ (Some _) => true
  | _ => false
  end.

(** The revisions written to a target driver, in order, failed writes too. *)
Fixpoint created (tr : list Event) : list Release :=
  match tr with
  | [] => []
  | StorageCreate _ r _ :: tr' => r :: created tr'
  | _ :: tr' => created tr'
  end.

(** The revisions whose write to the target driver returned [nil]. *)
Fixpoint written (tr : list Event) : list Release :=
  match tr with
  | [] => []
  | StorageCreate _ r None :: tr' => r :: written tr'
  | _ :: tr' => written tr'
  end.

(** The versions whose delete from the source driver was attempted. *)
Fixpoint deleted (tr : list Event) : list Z :=
  match tr with
  | [] => []
  | ReleasesDelete _ _ v _ :: tr' => v :: deleted tr'
  | _ :: tr' => deleted tr'
  end.

(** ** The shape of the revision loop's trace

    [Revisions m st name hist failed tr failed'] : [tr] is a run of the loop
    over [hist] entered with the flag at [failed], leaving it at [failed']. *)
Inductive Revisions (m : Migrator) (st : Storage) (name : string)
  : list Release -> bool -> list Event -> bool -> Prop :=
| Rev_done failed :
    Revisions m st name [] failed [] failed
| Rev_create_failed r rest failed e tr failed' :
    Revisions m st name rest true tr failed' ->
    Revisions m st name (r :: rest) failed
      (StorageCreate st r (Some e)
       :: Stdout ("failed to migrate release " ++ name ++ " version "
                  ++ fmt_d (Version r) ++ ",: " ++ e ++ nl)
       :: tr) failed'
| Rev_delete_failed r rest failed e tr failed' :
    Revisions m st name rest true tr failed' ->
    Revisions m st name (r :: rest) failed
      (StorageCreate st r None
       :: ReleasesDelete (actionCfg m) name (Version r) (Some e)
       :: Stdout ("failed to delete release " ++ name ++ " version "
                  ++ fmt_d (Version r) ++ ": " ++ e ++ nl)
       :: tr) failed'
| Rev_migrated r rest failed tr failed' :
    Revisions m st name rest failed tr failed' ->
    Revisions m st name (r :: rest) failed
      (StorageCreate st r None
       :: ReleasesDelete (actionCfg m) name (Version r) None
       :: Stdout ("migrated release " ++ name ++ " version "
                  ++ fmt_d (Version r) ++ nl)
       :: tr) failed'.

(** The events a call [migrateRelease(name, namespace)] on [m] can leave:
    the history and the deletes go through [m]'s one action configuration
    under [name], the writes through a driver over [namespace]. *)
Definition of_release (m : Migrator) (name namespace : string) (ev : Event)
  : Prop :=
  match ev with
  | Stdout _ => True
  | HistoryRun cfg n _ => cfg = actionCfg m /\ n = name
  | ListRun _ _ => False
  | StorageCreate st _ _ =>
    storageClient st = clientset m /\ storageNamespace st = namespace
  | ReleasesDelete cfg n _ _ => cfg = actionCfg m /\ n = name
  end.

(** The top-level errors of [main]: [TopLevelError K fl args hd w e w' tr]
    says that, started in [w], the run meets the error [e] in world [w'] after
    the events [tr]. *)
Inductive TopLevelError (K : Cluster) (fl : Flags) (args : list string)
    (hd : string) (w : World K) : error -> World K -> list Event -> Prop :=
| MissingSubcommand :
    arg 0 args = "" ->
    TopLevelError K fl args hd w "subprogram is required" w []
| ConstructionFailure e w1 t1 :
    arg 0 args <> "" ->
    NewMigrator K (kubeconfig fl) (namespace fl) hd w = (inl e, w1, t1) ->
    TopLevelError K fl args hd w e w1 t1
| MissingReleaseName m w1 t1 :
    arg 0 args = "release" ->
    NewMigrator K (kubeconfig fl) (namespace fl) hd w = (inr m, w1, t1) ->
    arg 1 args = "" ->
    TopLevelError K fl args hd w "release name is required" w1 t1
| UnknownSubcommand m w1 t1 :
    arg 0 args <> "" -> arg 0 args <> "release" ->
    arg 0 args <> "namespace" -> arg 0 args <> "all" ->
    NewMigrator K (kubeconfig fl) (namespace fl) hd w = (inr m, w1, t1) ->
    TopLevelError K fl args hd w ("unknown subprogram " ++ arg 0 args) w1 t1
| ReleaseFailed m w1 t1 e w2 t2 :
    arg 0 args = "release" ->
    NewMigrator K (kubeconfig fl) (namespace fl) hd w = (inr m, w1, t1) ->
    arg 1 args <> "" ->
    migrateRelease K fl m (arg 1 args) (namespace fl) w1 = (Some e, w2, t2) ->
    TopLevelError K fl args hd w e w2 (t1 ++ t2)%list
| NamespaceFailed m w1 t1 e w2 t2 :
    arg 0 args = "namespace" ->
    NewMigrator K (kubeconfig fl) (namespace fl) hd w = (inr m, w1, t1) ->
    migrateNamespace K fl m (namespace fl) w1 = (Some e, w2, t2) ->
    TopLevelError K fl args hd w e w2 (t1 ++ t2)%list
| AllFailed m w1 t1 e w2 t2 :
    arg 0 args = "all" ->
    NewMigrator K (kubeconfig fl) (namespace fl) hd w = (inr m, w1, t1) ->
    migrateAll K fl m w1 = (Some e, w2, t2) ->
    TopLevelError K fl args hd w e w2 (t1 ++ t2)%list.

(** The release names whose history was fetched, in order. *)
Fixpoint fetched (tr : list Event) : list string :=
  match tr with
  | [] => []
  | HistoryRun _ n _ :: tr' => n :: fetched tr'
  | _ :: tr' => fetched tr'
  end.

(** The listings made, each with its [AllNamespaces]. *)
Fixpoint listings (tr : list Event) : list bool :=
  match tr with
  | [] => []
  | ListRun _ all :: tr' => all :: listings tr'
  | _ :: tr' => listings tr'
  end.

(** The three lines the revision loop prints. *)
Definition migrated_line (name : string) (r : Release) : string :=
  "migrated release " ++ name ++ " version " ++ fmt_d (Version r) ++ nl.

Definition create_failed_line (name : string) (r : Release) (e : error)
  : string :=
  "failed to migrate release " ++ name ++ " version " ++ fmt_d (Version r)
  ++ ",: " ++ e ++ nl.

Definition delete_failed_line (name : string) (r : Release) (e : error)
  : string :=
  "failed to delete release " ++ name ++ " version " ++ fmt_d (Version r)
  ++ ": " ++ e ++ nl.

(** The four values of [-to] the switch knows. *)
Definition recognised (to : string) : Prop :=
  to = "configmap" \/ to = "configmaps" \/ to = "secret" \/ to = "secrets".

(** An event that stays within one namespace and one source driver: SDK
    calls through a configuration of [ns] and [driver], writes to [ns]. *)
Definition within (ns driver : string) (ev : Event) : Prop :=
  match ev with
  | Stdout _ => True
  | HistoryRun cfg _ _ | ListRun cfg _ | ReleasesDelete cfg _ _ _ =>
    cfgNamespace cfg = ns /\ cfgDriver cfg = driver
  | StorageCreate st _ _ => storageNamespace st = ns
  end.

(** The SDK calls of a trace, in order, without the lines printed. *)
Definition is_call (ev : Event) : bool :=
  match ev with Stdout _ => false | _ => true end.

Definition calls (tr : list Event) : list Event := filter is_call tr.

(** Following the spec's words, "writes each to the selected target driver,
    then deletes the corresponding revision from the source driver":
    [moveRevisions K st cfg name hist w] makes these calls on the cluster
    itself, revision by revision from the world [w], and is the world they
    leave when every write and every delete returns [nil]; it is [None] as
    soon as one of them fails. *)
Fixpoint moveRevisions (K : Cluster) (st : Storage) (cfg : ActionCfg)
    (name : string) (hist : list Release) (w : World K) : option (World K) :=
  match hist with
  | [] => Some w
  | r :: rest =>
    match storageCreate K st r w with
    | (w1, None) =>
      match releasesDelete K cfg name (Version r) w1 with
      | (w2, None) => moveRevisions K st cfg name rest w2
      | (_, Some _) => None
      end
    | (_, Some _) => None
    end
  end.

(** The calls of such a migration: for each revision its write, then its
    delete, both without error. *)
Definition moved (st : Storage) (cfg : ActionCfg) (name : string)
    (hist : list Release) : list Event :=
  flat_map (fun r => [StorageCreate st r None;
                      ReleasesDelete cfg name (Version r) None]) hist.

(** A delete of version [v] of [n] through [cfg] is a delete of the release
    [r]: the source driver of a configuration holds the releases of the
    configuration's namespace under their name and version. *)
Definition addresses (cfg : ActionCfg) (n : string) (v : Z) (r : Release)
  : Prop :=
  cfgNamespace cfg = Namespace r /\ n = Name r /\ v = Version r.

(** A trace leaves the release [r] untouched: no create is performed for it
    and no delete. *)
Definition untouched (r : Release) (tr : list Event) : Prop :=
  ~ In r (created tr)
  /\ (forall cfg n v err,
         In (ReleasesDelete cfg n v err) tr -> ~ addresses cfg n v r).

(** What the program relies on from the SDK: the history fetched through a
    configuration holds revisions of the release asked for, in the
    configuration's namespace. *)
Definition history_scoped (K : Cluster) (cfg : ActionCfg) : Prop :=
  forall name max w w' hist r,
    historyRun K cfg name max w = (w', inr hist) -> In r hist ->
    Name r = name /\ Namespace r = cfgNamespace cfg.

(** [Invocations K fl m target releases w tr w'] : from the world [w], the
    release-migration primitive is invoked for each release of [releases], in
    order, with the release's name and the namespace [target] gives for it,
    each invocation starting in the world the one before left, and its error,
    if any, printed after it; [tr] is all they leave and [w'] the world at the
    end. *)
Inductive Invocations (K : Cluster) (fl : Flags) (m : Migrator)
    (target : Release -> string)
  : list Release -> World K -> list Event -> World K -> Prop :=
| Invoked_none w :
    Invocations K fl m target [] w [] w
| Invoked_next r rest w tr w' :
    Invocations K fl m target rest
      (world (migrateRelease K fl m (Name r) (target r) w)) tr w' ->
    Invocations K fl m target (r :: rest) w
      (trace (migrateRelease K fl m (Name r) (target r) w)
       ++ match value (migrateRelease K fl m (Name r) (target r) w) with
          | Some e => [Println e]
          | None => []
          end
       ++ tr)%list w'.

(** ** An in-memory cluster

    A small stand-in for the two SDKs, in the manner of Helm's memory driver,
    on which the program runs to a value. *)
Module Memory.

Record world := mkWorld {
  reachable : bool;
  source : list Release;
  locked : list Z;
  target : list (Storage * Release)
}.

Definition same_release (a b : Release) : bool :=
  (Name a =? Name b)%string && (Namespace a =? Namespace b)%string
  && (Version a =? Version b).

Definition same_kind (a b : ResourceKind) : bool :=
  match a, b with
  | ConfigMaps, ConfigMaps | Secrets, Secrets => true
  | _, _ => false
  end.

Definition same_storage (a b : Storage) : bool :=
  (clientKubeconfig (storageClient a) =? clientKubeconfig (storageClient b))%string
  && same_kind (storageKind a) (storageKind b)
  && (storageNamespace a =? storageNamespace b)%string.

Definition buildConfig (path : string) (w : world) : world * option error :=
  if (path =? "")%string then (w, Some "invalid configuration") else (w, None).

Definition newForConfig (path : string) (w : world)
  : world * (error + Clientset) :=
  (w, inr (mkClientset path)).

Definition init (cfg : ActionCfg) (w : world) : world * option error :=
  if (cfgDriver cfg =? "sql")%string then (w, Some "unable to instantiate SQL driver")
  else (w, None).

(** A configuration initialised with the empty namespace sees every
    namespace. *)
Definition in_scope (cfg : ActionCfg) (r : Release) : bool :=
  (cfgNamespace cfg =? "")%string || (Namespace r =? cfgNamespace cfg)%string.

Definition held (cfg : ActionCfg) (name : string) (r : Release) : bool :=
  (Name r =? name)%string && in_scope cfg r.

Definition history (cfg : ActionCfg) (name : string) (max : Z) (w : world)
  : world * (error + list Release) :=
  if reachable w then
    match filter (held cfg name) (source w) with
    | [] => (w, inl "release: not found")
    | h => (w, inr h)
    end
  else (w, inl "Kubernetes cluster unreachable").

Definition list (cfg : ActionCfg) (all : bool) (w : world)
  : world * (error + list Release) :=
  if reachable w then
    (w, inr (filter (fun r => all || in_scope cfg r) (source w)))
  else (w, inl "Kubernetes cluster unreachable").

Definition create (st : Storage) (r : Release) (w : world)
  : world * option error :=
  if existsb (fun p => same_storage (fst p) st && same_release (snd p) r)
             (target w)
  then (w, Some "release: already exists")
  else (mkWorld (reachable w) (source w) (locked w) ((st, r) :: target w), None).

Definition delete (cfg : ActionCfg) (name : string) (v : Z) (w : world)
  : world * option error :=
  if existsb (Z.eqb v) (locked w) then (w, Some "release: locked")
  else if existsb (fun r => held cfg name r && (Version r =? v)) (source w) then
    (mkWorld (reachable w)
       (filter (fun r => negb (held cfg name r && (Version r =? v))) (source w))
       (locked w) (target w), None)
  else (w, Some "release: not found").

Definition cluster : Cluster :=
  mkCluster world buildConfig newForConfig init history list create delete.

(** A cluster with three revisions of [web] and one of [db] in [default], one
    release in [prod]; revision 1 of [web] is already present in the
    ConfigMaps of [default], and revision 2 cannot be deleted. *)
Definition kube : string := "/home/op/.kube/config".
Definition web (v : Z) : Release := mkRelease "web" "default" v.
Definition db1 : Release := mkRelease "db" "default" 1.
Definition api1 : Release := mkRelease "api" "prod" 1.
Definition cm_default : Storage := mkStorage (mkClientset kube) ConfigMaps "default".

Definition w0 : world :=
  mkWorld true [web 1; web 2; web 3; db1; api1] [2] [(cm_default, web 1)].

(** The same releases with nothing in the way. *)
Definition w_ok : world := mkWorld true [web 1; web 2; web 3; db1; api1] [] [].

(** A cluster that cannot be reached. *)
Definition w_down : world := mkWorld false [web 1] [] [].

Definition flags (to : string) : Flags := mkFlags kube to "default" 10.

(** A migrator over [default], and one whose configuration sees every
    namespace. *)
Definition cfg_default : ActionCfg := mkActionCfg kube "default" "secret".
Definition mig : Migrator := mkMigrator (mkClientset kube) cfg_default.
Definition mig_any : Migrator :=
  mkMigrator (mkClientset kube) (mkActionCfg kube "" "secret").

(** [w_ok] once the three revisions of [web] have moved to the ConfigMaps of
    [default]. *)
Definition w_moved : world :=
  mkWorld true [db1; api1] []
    [(cm_default, web 3); (cm_default, web 2); (cm_default, web 1)].

(** A cluster with a [web] in each of two namespaces. *)
Definition web_prod : Release := mkRelease "web" "prod" 1.
Definition w_two : world := mkWorld true [web 1; web_prod; api1] [] [].
Definition cfg_prod : ActionCfg := mkActionCfg kube "prod" "secret".
Definition mig_prod : Migrator := mkMigrator (mkClientset kube) cfg_prod.

(** A source driver that answers for an unknown release with an empty
    history rather than an error. *)
Definition history_lenient (cfg : ActionCfg) (name : string) (max : Z)
    (w : world) : world * (error + Datatypes.list Release) :=
  if reachable w then (w, inr (filter (held cfg name) (source w)))
  else (w, inl "Kubernetes cluster unreachable").

Definition lenient : Cluster :=
  mkCluster world buildConfig newForConfig init history_lenient list create
    delete.

End Memory.

Lemma migrateRevisions_shape (K : Cluster) m st name hist :
  forall failed w,
    Revisions m st name hist failed
      (trace (migrateRevisions K m st name hist failed w))
      (value (migrateRevisions K m st name hist failed w)).
Proof.
  induction hist as [|r rest IH]; intros failed w.
  - apply Rev_done.
  - cbn [migrateRevisions]. unfold bind, call, emit.
    destruct (storageCreate K st r w) as [w1 [e|]].
    + specialize (IH true w1).
      destruct (migrateRevisions K m st name rest true w1) as [[b w2] t2].
      apply Rev_create_failed. exact IH.
    + destruct (releasesDelete K (actionCfg m) name (Version r) w1) as [w2 [e|]].
      * specialize (IH true w2).
        destruct (migrateRevisions K m st name rest true w2) as [[b w3] t3].
        apply Rev_delete_failed. exact IH.
      * specialize (IH failed w2).
        destruct (migrateRevisions K m st name rest failed w2) as [[b w3] t3].
        apply Rev_migrated. exact IH.
Qed.


(** ** Runs of [migrateRelease] *)

Lemma migrateRelease_run (K : Cluster) fl m name ns st w w1 hist :
  helmStorage m (to fl) ns = inr st ->
  historyRun K (actionCfg m) name (maxHist fl) w = (w1, inr hist) ->
  migrateRelease K fl m name ns w =
    (if value (migrateRevisions K m st name hist false w1)
     then Some ("failed to migrate release " ++ name) else None,
     world (migrateRevisions K m st name hist false w1),
     HistoryRun (actionCfg m) name (maxHist fl)
       :: trace (migrateRevisions K m st name hist false w1)).
Proof.
  intros Hst Hh. unfold migrateRelease. rewrite Hst.
  unfold bind, call. rewrite Hh.
  destruct (migrateRevisions K m st name hist false w1) as [[b w2] t2].
  destruct b; cbn; rewrite app_nil_r; reflexivity.
Qed.

(** The three ways [migrateRelease] can go: no target driver, no history, or
    the loop over the history. *)
Lemma migrateRelease_cases (K : Cluster) fl m name ns w :
  (exists e, helmStorage m (to fl) ns = inl e
     /\ migrateRelease K fl m name ns w = (Some e, w, []))
  \/ (exists st w1 e, helmStorage m (to fl) ns = inr st
        /\ historyRun K (actionCfg m) name (maxHist fl) w = (w1, inl e)
        /\ migrateRelease K fl m name ns w
           = (Some e, w1, [HistoryRun (actionCfg m) name (maxHist fl)]))
  \/ (exists st w1 hist tr b w2, helmStorage m (to fl) ns = inr st
        /\ historyRun K (actionCfg m) name (maxHist fl) w = (w1, inr hist)
        /\ Revisions m st name hist false tr b
        /\ migrateRelease K fl m name ns w
           = (if b then Some ("failed to migrate release " ++ name) else None,
              w2, HistoryRun (actionCfg m) name (maxHist fl) :: tr)).
Proof.
  destruct (helmStorage m (to fl) ns) as [e|st] eqn:Hst.
  - left. exists e. split; [reflexivity|].
    unfold migrateRelease. rewrite Hst. reflexivity.
  - right.
    destruct (historyRun K (actionCfg m) name (maxHist fl) w) as [w1 [e|hist]] eqn:Hh.
    + left. exists st, w1, e. repeat split.
      unfold migrateRelease. rewrite Hst. unfold bind, call. rewrite Hh.
      reflexivity.
    + right.
      exists st, w1, hist, (trace (migrateRevisions K m st name hist false w1)),
        (value (migrateRevisions K m st name hist false w1)),
        (world (migrateRevisions K m st name hist false w1)).
      repeat split.
      * apply migrateRevisions_shape.
      * apply migrateRelease_run; assumption.
Qed.

(** ** What a loop trace says *)

Section LoopTrace.

Variables (m : Migrator) (st : Storage) (name : string).

Lemma Revisions_created hist failed tr failed' :
  Revisions m st name hist failed tr failed' -> created tr = hist.
Proof.
  induction 1; cbn; congruence.
Qed.

Lemma Revisions_deleted hist failed tr failed' :
  Revisions m st name hist failed tr failed' ->
  deleted tr = map Version (written tr).
Proof.
  induction 1; cbn; congruence.
Qed.

Lemma Revisions_flag hist failed tr failed' :
  Revisions m st name hist failed tr failed' ->
  failed' = failed || existsb failure tr.
Proof.
  induction 1; cbn.
  - now rewrite orb_false_r.
  - rewrite IHRevisions. now rewrite orb_true_r.
  - rewrite IHRevisions. now rewrite orb_true_r.
  - exact IHRevisions.
Qed.

Lemma Revisions_all_succeeded hist failed tr failed' :
  Revisions m st name hist failed tr failed' ->
  existsb failure tr = false ->
  written tr = hist /\ deleted tr = map Version hist.
Proof.
  induction 1; cbn; intros Hf; try discriminate.
  - split; reflexivity.
  - destruct (IHRevisions Hf) as [-> ->]. split; reflexivity.
Qed.

Lemma Revisions_storage hist failed tr failed' :
  Revisions m st name hist failed tr failed' ->
  forall ev, In ev tr ->
    match ev with
    | Stdout _ => True
    | StorageCreate st' _ _ => st' = st
    | ReleasesDelete cfg n _ _ => cfg = actionCfg m /\ n = name
    | _ => False
    end.
Proof.
  induction 1; cbn; intros ev Hin.
  - contradiction.
  - destruct Hin as [<-|[<-|Hin]]; cbn; auto. now apply IHRevisions.
  - destruct Hin as [<-|[<-|[<-|Hin]]]; cbn; auto. now apply IHRevisions.
  - destruct Hin as [<-|[<-|[<-|Hin]]]; cbn; auto. now apply IHRevisions.
Qed.

(** A delete comes right after the successful write of the same revision. *)
Lemma Revisions_delete_after_write hist failed tr failed' :
  Revisions m st name hist failed tr failed' ->
  forall pre cfg n v err post,
    tr = (pre ++ ReleasesDelete cfg n v err :: post)%list ->
    exists pre' r,
      pre = (pre' ++ [StorageCreate st r None])%list /\ Version r = v
      /\ In r hist /\ cfg = actionCfg m /\ n = name.
Proof.
  induction 1 as [f | r rest f e tr f' _ IH | r rest f e tr f' _ IH
                 | r rest f tr f' _ IH];
    intros pre cfg n v err post Heq.
  - destruct pre; discriminate.
  - destruct pre as [|p0 [|p1 pre]]; try discriminate.
    cbn [app] in Heq. injection Heq as <- <- Heq'.
    destruct (IH _ _ _ _ _ _ Heq') as (pre' & r' & -> & Hv & Hin & Hcn).
    eexists (_ :: _ :: pre'), r'.
    split; [reflexivity | split; [exact Hv | split; [now right | exact Hcn]]].
  - destruct pre as [|p0 [|p1 [|p2 pre]]]; try discriminate; cbn [app] in Heq.
    + inversion Heq; subst. exists [], r.
      split; [reflexivity | split; [reflexivity | split; [now left | now split]]].
    + injection Heq as <- <- <- Heq'.
      destruct (IH _ _ _ _ _ _ Heq') as (pre' & r' & -> & Hv & Hin & Hcn).
      eexists (_ :: _ :: _ :: pre'), r'.
      split; [reflexivity | split; [exact Hv | split; [now right | exact Hcn]]].
  - destruct pre as [|p0 [|p1 [|p2 pre]]]; try discriminate; cbn [app] in Heq.
    + inversion Heq; subst. exists [], r.
      split; [reflexivity | split; [reflexivity | split; [now left | now split]]].
    + injection Heq as <- <- <- Heq'.
      destruct (IH _ _ _ _ _ _ Heq') as (pre' & r' & -> & Hv & Hin & Hcn).
      eexists (_ :: _ :: _ :: pre'), r'.
      split; [reflexivity | split; [exact Hv | split; [now right | exact Hcn]]].
Qed.

(** A failed write is followed by its log line and then by the run over the
    revisions after it: no delete, and no stop. *)
Lemma Revisions_failed_write hist failed tr failed' :
  Revisions m st name hist failed tr failed' ->
  forall pre st' r e post,
    tr = (pre ++ StorageCreate st' r (Some e) :: post)%list ->
    exists before rest tr',
      hist = (before ++ r :: rest)%list
      /\ post = Stdout ("failed to migrate release " ++ name ++ " version "
                        ++ fmt_d (Version r) ++ ",: " ++ e ++ nl) :: tr'
      /\ Revisions m st name rest true tr' failed'.
Proof.
  induction 1 as [f | r rest f e tr f' Hrest IH | r rest f e tr f' _ IH
                 | r rest f tr f' _ IH];
    intros pre st' r0 e0 post Heq.
  - destruct pre; discriminate.
  - destruct pre as [|p0 [|p1 pre]]; try discriminate; cbn [app] in Heq.
    + inversion Heq; subst. exists [], rest, tr. split; [reflexivity | split; [reflexivity | assumption]].
    + injection Heq as <- <- Heq'.
      destruct (IH _ _ _ _ _ Heq') as (bef & rs & tr' & -> & -> & Hr).
      exists (r :: bef), rs, tr'. split; [reflexivity | split; [reflexivity | assumption]].
  - destruct pre as [|p0 [|p1 [|p2 pre]]]; try discriminate; cbn [app] in Heq.
    injection Heq as <- <- <- Heq'.
    destruct (IH _ _ _ _ _ Heq') as (bef & rs & tr' & -> & -> & Hr).
    exists (r :: bef), rs, tr'. split; [reflexivity | split; [reflexivity | assumption]].
  - destruct pre as [|p0 [|p1 [|p2 pre]]]; try discriminate; cbn [app] in Heq.
    injection Heq as <- <- <- Heq'.
    destruct (IH _ _ _ _ _ Heq') as (bef & rs & tr' & -> & -> & Hr).
    exists (r :: bef), rs, tr'. split; [reflexivity | split; [reflexivity | assumption]].
Qed.

End LoopTrace.

(** One turn of the loop. *)
Lemma migrateRevisions_cons (K : Cluster) m st name r rest failed w :
  migrateRevisions K m st name (r :: rest) failed w
  = match storageCreate K st r w with
    | (w1, Some e) =>
      (value (migrateRevisions K m st name rest true w1),
       world (migrateRevisions K m st name rest true w1),
       StorageCreate st r (Some e)
         :: Stdout (create_failed_line name r e)
         :: trace (migrateRevisions K m st name rest true w1))
    | (w1, None) =>
      match releasesDelete K (actionCfg m) name (Version r) w1 with
      | (w2, Some e) =>
        (value (migrateRevisions K m st name rest true w2),
         world (migrateRevisions K m st name rest true w2),
         StorageCreate st r None
           :: ReleasesDelete (actionCfg m) name (Version r) (Some e)
           :: Stdout (delete_failed_line name r e)
           :: trace (migrateRevisions K m st name rest true w2))
      | (w2, None) =>
        (value (migrateRevisions K m st name rest failed w2),
         world (migrateRevisions K m st name rest failed w2),
         StorageCreate st r None
           :: ReleasesDelete (actionCfg m) name (Version r) None
           :: Stdout (migrated_line name r)
           :: trace (migrateRevisions K m st name rest failed w2))
      end
    end.
Proof.
  cbn [migrateRevisions]. unfold bind, call, emit.
  destruct (storageCreate K st r w) as [w1 [e|]].
  - destruct (migrateRevisions K m st name rest true w1) as [[b w2] t2].
    reflexivity.
  - destruct (releasesDelete K (actionCfg m) name (Version r) w1)
      as [w2 [e|]].
    + destruct (migrateRevisions K m st name rest true w2) as [[b w3] t3].
      reflexivity.
    + destruct (migrateRevisions K m st name rest failed w2) as [[b w3] t3].
      reflexivity.
Qed.

(** The loop against the calls made on the cluster one by one. *)
Lemma moveRevisions_run (K : Cluster) m st name hist :
  forall failed w w',
    moveRevisions K st (actionCfg m) name hist w = Some w' ->
    value (migrateRevisions K m st name hist failed w) = failed
    /\ world (migrateRevisions K m st name hist failed w) = w'
    /\ calls (trace (migrateRevisions K m st name hist failed w))
       = moved st (actionCfg m) name hist
    /\ existsb failure (trace (migrateRevisions K m st name hist failed w))
       = false.
Proof.
  induction hist as [|r rest IH]; intros failed w w' Hmove.
  - cbn in Hmove. injection Hmove as <-. repeat split.
  - cbn [moveRevisions] in Hmove. rewrite migrateRevisions_cons.
    destruct (storageCreate K st r w) as [w1 [e|]]; [discriminate|].
    destruct (releasesDelete K (actionCfg m) name (Version r) w1)
      as [w2 [e|]]; [discriminate|].
    destruct (IH failed w2 w' Hmove) as (Hv & Hw & Hc & Hf).
    cbn [value world trace fst snd]. unfold value, world, trace in *.
    split; [exact Hv|]. split; [exact Hw|]. split.
    + unfold calls in *. cbn. now rewrite Hc.
    + cbn. exact Hf.
Qed.

Lemma no_failure_moves (K : Cluster) m st name hist :
  forall failed w,
    existsb failure (trace (migrateRevisions K m st name hist failed w))
    = false ->
    exists w', moveRevisions K st (actionCfg m) name hist w = Some w'.
Proof.
  induction hist as [|r rest IH]; intros failed w Hok.
  - exists w. reflexivity.
  - rewrite migrateRevisions_cons in Hok. cbn [moveRevisions].
    destruct (storageCreate K st r w) as [w1 [e|]]; [discriminate|].
    destruct (releasesDelete K (actionCfg m) name (Version r) w1)
      as [w2 [e|]]; [discriminate|].
    apply (IH failed w2). exact Hok.
Qed.

(** ** [migrateRelease] *)

(** C1.  In a run of [migrateRelease], a delete from the source driver comes
    directly after a write of the same revision to the target driver that
    returned no error, and goes by the release name of the call through the
    migrator's configuration; a version none of whose writes succeeded is not
    deleted at all. *)
Theorem migrateRelease_delete_only_after_write (K : Cluster) fl m name ns w :
  (forall pre cfg n v err post,
      trace (migrateRelease K fl m name ns w)
      = (pre ++ ReleasesDelete cfg n v err :: post)%list ->
      exists pre' st r,
        pre = (pre' ++ [StorageCreate st r None])%list /\ Version r = v
        /\ cfg = actionCfg m /\ n = name)
  /\ (forall v,
        (forall st r err,
            In (StorageCreate st r err) (trace (migrateRelease K fl m name ns w)) ->
            Version r = v -> err <> None) ->
        forall cfg n err,
          ~ In (ReleasesDelete cfg n v err)
               (trace (migrateRelease K fl m name ns w))).
Proof.
  assert (Hfirst : forall pre cfg n v err post,
      trace (migrateRelease K fl m name ns w)
      = (pre ++ ReleasesDelete cfg n v err :: post)%list ->
      exists pre' st r,
        pre = (pre' ++ [StorageCreate st r None])%list /\ Version r = v
        /\ cfg = actionCfg m /\ n = name).
  { intros pre cfg n v err post Heq.
    destruct (migrateRelease_cases K fl m name ns w)
      as [(e & _ & Hrun) | [(st & w1 & e & _ & _ & Hrun)
                           | (st & w1 & hist & tr & b & w2 & _ & _ & Hrev & Hrun)]];
      rewrite Hrun in Heq; cbn [trace snd] in Heq.
    - destruct pre; discriminate.
    - destruct pre as [|p0 [|p1 pre]]; discriminate.
    - destruct pre as [|p0 pre]; [discriminate|].
      cbn [app] in Heq. injection Heq as <- Heq.
      destruct (Revisions_delete_after_write _ _ _ _ _ _ _ Hrev _ _ _ _ _ _ Heq)
        as (pre' & r & -> & Hv & _ & Hcn).
      eexists (_ :: pre'), st, r.
      split; [reflexivity | split; [exact Hv | exact Hcn]]. }
  split; [exact Hfirst|].
  intros v Hfail cfg n err Hin.
  destruct (in_split _ _ Hin) as (pre & post & Heq).
  destruct (Hfirst _ _ _ _ _ _ Heq) as (pre' & st & r & -> & Hv & _).
  apply (Hfail st r None); [|exact Hv|reflexivity].
  rewrite Heq. rewrite in_app_iff. left. rewrite in_app_iff. right. now left.
Qed.

(** C2.  When the target driver is selected and the history holds [N]
    revisions, and every write to the target driver and every delete from the
    source driver succeeds on the cluster, [migrateRelease] returns [nil] and
    leaves the world those [2N] calls leave: after the fetch its calls are, for
    each revision in turn, the write of that revision to the selected driver
    and the delete of its version through the migrator's configuration, [N]
    creates and [N] deletes in all.  That every call succeeds can be read off
    the cluster or off the run: the two agree. *)
Theorem migrateRelease_all_succeed (K : Cluster) fl m name ns st w w1 hist :
  helmStorage m (to fl) ns = inr st ->
  historyRun K (actionCfg m) name (maxHist fl) w = (w1, inr hist) ->
  (forall w',
      moveRevisions K st (actionCfg m) name hist w1 = Some w' ->
      value (migrateRelease K fl m name ns w) = None
      /\ world (migrateRelease K fl m name ns w) = w'
      /\ calls (trace (migrateRelease K fl m name ns w))
         = HistoryRun (actionCfg m) name (maxHist fl)
             :: moved st (actionCfg m) name hist
      /\ created (trace (migrateRelease K fl m name ns w)) = hist
      /\ deleted (trace (migrateRelease K fl m name ns w)) = map Version hist
      /\ List.length (created (trace (migrateRelease K fl m name ns w)))
         = List.length hist
      /\ List.length (deleted (trace (migrateRelease K fl m name ns w)))
         = List.length hist)
  /\ (existsb failure (trace (migrateRelease K fl m name ns w)) = false
      <-> exists w', moveRevisions K st (actionCfg m) name hist w1 = Some w').
Proof.
  intros Hst Hh. rewrite (migrateRelease_run K fl m name ns st w w1 hist Hst Hh).
  cbn [trace value world snd fst existsb failure created deleted orb].
  pose proof (migrateRevisions_shape K m st name hist false w1) as Hrev.
  split.
  - intros w' Hmove.
    destruct (moveRevisions_run K m st name hist false w1 w' Hmove)
      as (Hv & Hw & Hc & Hok).
    pose proof (Revisions_created _ _ _ _ _ _ _ Hrev) as Hcr.
    destruct (Revisions_all_succeeded _ _ _ _ _ _ _ Hrev Hok) as [_ Hd].
    rewrite Hv, Hw, Hcr, Hd, length_map.
    repeat split. unfold calls in *. cbn. now rewrite Hc.
  - split.
    + apply no_failure_moves.
    + intros [w' Hmove].
      exact (proj2 (proj2 (proj2
               (moveRevisions_run K m st name hist false w1 w' Hmove)))).
Qed.

(** C3.  Every revision of the history gets its write to the target driver,
    whatever failed before it; deletes are attempted for exactly the revisions
    whose write succeeded; and a failed write is followed by its log line and
    by the loop over the revisions that remain. *)
Theorem migrateRelease_continues (K : Cluster) fl m name ns st w w1 hist :
  helmStorage m (to fl) ns = inr st ->
  historyRun K (actionCfg m) name (maxHist fl) w = (w1, inr hist) ->
  created (trace (migrateRelease K fl m name ns w)) = hist
  /\ deleted (trace (migrateRelease K fl m name ns w))
     = map Version (written (trace (migrateRelease K fl m name ns w)))
  /\ (forall pre st' r e post,
        trace (migrateRelease K fl m name ns w)
        = (pre ++ StorageCreate st' r (Some e) :: post)%list ->
        exists before rest tr' failed',
          hist = (before ++ r :: rest)%list
          /\ post = Stdout ("failed to migrate release " ++ name ++ " version "
                            ++ fmt_d (Version r) ++ ",: " ++ e ++ nl) :: tr'
          /\ Revisions m st name rest true tr' failed'
          /\ created tr' = rest).
Proof.
  intros Hst Hh. rewrite (migrateRelease_run K fl m name ns st w w1 hist Hst Hh).
  cbn [trace snd created deleted written].
  pose proof (migrateRevisions_shape K m st name hist false w1) as Hrev.
  split; [exact (Revisions_created _ _ _ _ _ _ _ Hrev)|].
  split; [exact (Revisions_deleted _ _ _ _ _ _ _ Hrev)|].
  intros pre st' r e post Heq.
  destruct pre as [|p0 pre]; [discriminate|].
  cbn [app] in Heq. injection Heq as <- Heq.
  destruct (Revisions_failed_write _ _ _ _ _ _ _ Hrev _ _ _ _ _ Heq)
    as (bef & rest & tr' & Hh' & Hp & Hr).
  exists bef, rest, tr', (value (migrateRevisions K m st name hist false w1)).
  repeat split; try assumption.
  exact (Revisions_created _ _ _ _ _ _ _ Hr).
Qed.

(** C4.  Once the target driver is selected and the history fetched,
    [migrateRelease] returns an error exactly when some write or delete of the
    run failed, and [nil] otherwise. *)
Theorem migrateRelease_error_iff_failure (K : Cluster) fl m name ns st w w1 hist :
  helmStorage m (to fl) ns = inr st ->
  historyRun K (actionCfg m) name (maxHist fl) w = (w1, inr hist) ->
  (value (migrateRelease K fl m name ns w) <> None
   <-> existsb failure (trace (migrateRelease K fl m name ns w)) = true)
  /\ (existsb failure (trace (migrateRelease K fl m name ns w)) = false ->
      value (migrateRelease K fl m name ns w) = None)
  /\ (existsb failure (trace (migrateRelease K fl m name ns w)) = true ->
      value (migrateRelease K fl m name ns w)
      = Some ("failed to migrate release " ++ name)).
Proof.
  intros Hst Hh. rewrite (migrateRelease_run K fl m name ns st w w1 hist Hst Hh).
  cbn [trace value snd fst existsb failure orb].
  pose proof (migrateRevisions_shape K m st name hist false w1) as Hrev.
  pose proof (Revisions_flag _ _ _ _ _ _ _ Hrev) as Hb. cbn [orb] in Hb.
  unfold value in *. rewrite Hb.
  destruct (existsb failure (trace (migrateRevisions K m st name hist false w1)));
    (split; [split|split]); intros; try reflexivity; try discriminate;
    try contradiction.
Qed.

(** C6.  With a [-to] value outside the four names of the switch,
    [migrateRelease] returns the error at once: nothing is fetched, written or
    deleted, and the world is as it was. *)
Theorem migrateRelease_unknown_kind (K : Cluster) fl m name ns w :
  to fl <> "configmap" -> to fl <> "configmaps" ->
  to fl <> "secret" -> to fl <> "secrets" ->
  migrateRelease K fl m name ns w
  = (Some ("unknown resource type " ++ to fl), w, []).
Proof.
  intros H1 H2 H3 H4. unfold migrateRelease, helmStorage.
  apply String.eqb_neq in H1, H2, H3, H4.
  rewrite H1, H2, H3, H4. reflexivity.
Qed.

(** C9.  The plural names select the driver of the singular ones, and the
    whole run of [migrateRelease] is the same under either. *)
Theorem helmStorage_plural (K : Cluster) kc n mx m name ns :
  helmStorage m "configmaps" ns = inr (mkStorage (clientset m) ConfigMaps ns)
  /\ helmStorage m "configmaps" ns = helmStorage m "configmap" ns
  /\ helmStorage m "secrets" ns = inr (mkStorage (clientset m) Secrets ns)
  /\ helmStorage m "secrets" ns = helmStorage m "secret" ns
  /\ migrateRelease K (mkFlags kc "configmaps" n mx) m name ns
     = migrateRelease K (mkFlags kc "configmap" n mx) m name ns
  /\ migrateRelease K (mkFlags kc "secrets" n mx) m name ns
     = migrateRelease K (mkFlags kc "secret" n mx) m name ns.
Proof.
  repeat split; reflexivity.
Qed.

(** ** The monad's equations *)

Lemma bind_ret_l (K : Cluster) {A B} (a : A) (f : A -> M K B) w :
  bind K (ret K a) f w = f a w.
Proof.
  unfold bind, ret. destruct (f a w) as [[b w2] t2]. reflexivity.
Qed.

Lemma bind_run (K : Cluster) {A B} (c : M K A) (f : A -> M K B) w :
  bind K c f w
  = (value (f (value (c w)) (world (c w))),
     world (f (value (c w)) (world (c w))),
     (trace (c w) ++ trace (f (value (c w)) (world (c w))))%list).
Proof.
  unfold bind. destruct (c w) as [[a w1] t1]. cbn.
  destruct (f a w1) as [[b w2] t2]. reflexivity.
Qed.

(** ** The events of one [migrateRelease] *)

Lemma helmStorage_inr m to ns st :
  helmStorage m to ns = inr st ->
  storageClient st = clientset m /\ storageNamespace st = ns.
Proof.
  unfold helmStorage.
  destruct ((to =? "configmap")%string || (to =? "configmaps")%string);
    [intros [= <-]; split; reflexivity|].
  destruct ((to =? "secret")%string || (to =? "secrets")%string);
    [intros [= <-]; split; reflexivity|discriminate].
Qed.

Lemma migrateRelease_events (K : Cluster) fl m name ns w :
  Forall (of_release m name ns) (trace (migrateRelease K fl m name ns w)).
Proof.
  apply Forall_forall. intros ev Hin.
  destruct (migrateRelease_cases K fl m name ns w)
    as [(e & _ & Hrun) | [(st & w1 & e & _ & _ & Hrun)
                         | (st & w1 & hist & tr & b & w2 & Hst & _ & Hrev & Hrun)]];
    rewrite Hrun in Hin; cbn [trace snd] in Hin.
  - contradiction.
  - destruct Hin as [<-|[]]. split; reflexivity.
  - destruct Hin as [<-|Hin]; [split; reflexivity|].
    pose proof (Revisions_storage _ _ _ _ _ _ _ Hrev ev Hin) as H.
    destruct (helmStorage_inr _ _ _ _ Hst) as [Hc Hn].
    destruct ev; cbn; try exact I; try contradiction.
    + subst st0. split; assumption.
    + exact H.
Qed.

(** One iteration of the loops: the call, then the error's line if any. *)
Lemma logged_events (K : Cluster) fl m name ns w :
  Forall (of_release m name ns)
    (trace (bind K (migrateRelease K fl m name ns)
              (fun err => match err with
                          | Some e => emit K (Println e)
                          | None => ret K tt
                          end) w)).
Proof.
  rewrite bind_run. cbn [trace snd].
  apply Forall_app. split; [apply migrateRelease_events|].
  destruct (value (migrateRelease K fl m name ns w)); cbn.
  - constructor; [exact I|constructor].
  - constructor.
Qed.

(** ** The two loops over a listing *)

Lemma migrateAllLoop_segments (K : Cluster) fl m releases :
  forall w, exists segs,
    trace (migrateAllLoop K fl m releases w) = List.concat segs
    /\ Forall2 (fun r seg => Forall (of_release m (Name r) (Namespace r)) seg)
         releases segs.
Proof.
  induction releases as [|r rest IH]; intros w.
  - exists []. split; [reflexivity|constructor].
  - cbn [migrateAllLoop]. rewrite bind_run. cbn [trace snd].
    match goal with
    | |- context [trace (migrateAllLoop K fl m rest ?w')] =>
      destruct (IH w') as (segs & -> & Hsegs)
    end.
    eexists (_ :: segs). split; [reflexivity|].
    constructor; [apply logged_events | exact Hsegs].
Qed.

Lemma migrateNamespaceLoop_filter (K : Cluster) fl m ns releases :
  forall w,
    migrateNamespaceLoop K fl m ns releases w
    = migrateNamespaceLoop K fl m ns
        (filter (fun r => (Namespace r =? ns)%string) releases) w.
Proof.
  induction releases as [|r rest IH]; intros w; [reflexivity|].
  cbn [migrateNamespaceLoop filter].
  destruct (Namespace r =? ns)%string eqn:Hns.
  - cbn [migrateNamespaceLoop]. rewrite Hns.
    rewrite (bind_run K _ (fun _ => migrateNamespaceLoop K fl m ns rest)).
    rewrite (bind_run K _ (fun _ => migrateNamespaceLoop K fl m ns (filter _ rest))).
    now rewrite IH.
  - rewrite bind_ret_l. apply IH.
Qed.

Lemma migrateNamespaceLoop_segments (K : Cluster) fl m ns releases :
  forall w, exists segs,
    trace (migrateNamespaceLoop K fl m ns releases w) = List.concat segs
    /\ Forall2 (fun r seg => Namespace r = ns
                             /\ Forall (of_release m (Name r) ns) seg)
         (filter (fun r => (Namespace r =? ns)%string) releases) segs.
Proof.
  induction releases as [|r rest IH]; intros w.
  - exists []. split; [reflexivity|constructor].
  - cbn [migrateNamespaceLoop filter].
    destruct (Namespace r =? ns)%string eqn:Hns.
    + rewrite bind_run. cbn [trace snd].
      match goal with
      | |- context [trace (migrateNamespaceLoop K fl m ns rest ?w')] =>
        destruct (IH w') as (segs & -> & Hsegs)
      end.
      eexists (_ :: segs). split; [reflexivity|].
      constructor; [|exact Hsegs].
      split; [now apply String.eqb_eq | apply logged_events].
    + rewrite bind_ret_l. apply IH.
Qed.

(** ** Invocations of the primitive *)

Lemma helmStorage_recognised m to ns :
  recognised to -> exists st, helmStorage m to ns = inr st.
Proof.
  intros [ -> | [ -> | [ -> | -> ] ] ]; eexists; reflexivity.
Qed.

Lemma of_release_within m name ns hd ev :
  cfgNamespace (actionCfg m) = ns -> cfgDriver (actionCfg m) = hd ->
  of_release m name ns ev -> within ns hd ev.
Proof.
  intros Hn Hd. destruct ev; cbn; try tauto.
  - intros [-> _]. now split.
  - intros [-> _]. now split.
Qed.

Lemma migrateNamespace_within (K : Cluster) fl m ns hd w :
  cfgNamespace (actionCfg m) = ns -> cfgDriver (actionCfg m) = hd ->
  Forall (within ns hd) (trace (migrateNamespace K fl m ns w)).
Proof.
  intros Hn Hd.
  assert (Hloop : forall rs w',
    Forall (within ns hd) (trace (migrateNamespaceLoop K fl m ns rs w'))).
  { induction rs as [|r rest IH]; intros w'; [constructor|].
    cbn [migrateNamespaceLoop].
    destruct (Namespace r =? ns)%string.
    - rewrite bind_run. cbn [trace snd]. apply Forall_app. split; [|apply IH].
      eapply Forall_impl; [|apply logged_events].
      intros ev. now apply of_release_within.
    - rewrite bind_ret_l. apply IH. }
  unfold migrateNamespace. unfold bind at 1, call.
  destruct (listRun K (actionCfg m) false w) as [w1 [e|rs]]; cbn [trace snd].
  - constructor; [now split | constructor].
  - rewrite bind_run. cbn [trace snd ret app].
    constructor; [now split|]. apply Forall_app. split; [apply Hloop|constructor].
Qed.

Lemma fetched_app a b : fetched (a ++ b) = (fetched a ++ fetched b)%list.
Proof.
  induction a as [|[] a IH]; cbn; congruence.
Qed.

Lemma listings_app a b : listings (a ++ b) = (listings a ++ listings b)%list.
Proof.
  induction a as [|[] a IH]; cbn; congruence.
Qed.

Lemma Revisions_quiet m st name hist failed tr failed' :
  Revisions m st name hist failed tr failed' ->
  fetched tr = [] /\ listings tr = [].
Proof.
  induction 1; cbn; auto.
Qed.

Lemma migrateRelease_fetched (K : Cluster) fl m name ns w :
  recognised (to fl) ->
  fetched (trace (migrateRelease K fl m name ns w)) = [name].
Proof.
  intros Hto.
  destruct (helmStorage_recognised m (to fl) ns Hto) as [st Hst].
  destruct (migrateRelease_cases K fl m name ns w)
    as [(e & He & _) | [(st' & w1 & e & _ & _ & Hrun)
                       | (st' & w1 & hist & tr & b & w2 & _ & _ & Hrev & Hrun)]].
  - congruence.
  - rewrite Hrun. reflexivity.
  - rewrite Hrun. cbn [trace snd fetched].
    now rewrite (proj1 (Revisions_quiet _ _ _ _ _ _ _ Hrev)).
Qed.

Lemma created_app a b : created (a ++ b) = (created a ++ created b)%list.
Proof.
  induction a as [|[] a IH]; cbn; congruence.
Qed.

Lemma logged_run (K : Cluster) fl m name ns w :
  bind K (migrateRelease K fl m name ns)
    (fun err => match err with
                | Some e => emit K (Println e)
                | None => ret K tt
                end) w
  = (tt, world (migrateRelease K fl m name ns w),
     (trace (migrateRelease K fl m name ns w)
      ++ match value (migrateRelease K fl m name ns w) with
         | Some e => [Println e]
         | None => []
         end)%list).
Proof.
  rewrite bind_run.
  destruct (value (migrateRelease K fl m name ns w)); reflexivity.
Qed.

Lemma migrateAllLoop_invocations (K : Cluster) fl m releases :
  forall w,
    Invocations K fl m Namespace releases w
      (trace (migrateAllLoop K fl m releases w))
      (world (migrateAllLoop K fl m releases w)).
Proof.
  induction releases as [|r rest IH]; intros w; [constructor|].
  cbn [migrateAllLoop]. rewrite bind_run, logged_run.
  cbn [value world trace fst snd]. rewrite <- app_assoc.
  apply Invoked_next. apply IH.
Qed.

Lemma migrateNamespaceLoop_invocations (K : Cluster) fl m ns releases :
  forall w,
    Invocations K fl m (fun _ => ns)
      (filter (fun r => (Namespace r =? ns)%string) releases) w
      (trace (migrateNamespaceLoop K fl m ns releases w))
      (world (migrateNamespaceLoop K fl m ns releases w)).
Proof.
  induction releases as [|r rest IH]; intros w; [constructor|].
  cbn [migrateNamespaceLoop filter].
  destruct (Namespace r =? ns)%string.
  - rewrite bind_run, logged_run.
    cbn [value world trace fst snd]. rewrite <- app_assoc.
    apply (Invoked_next K fl m (fun _ => ns) r). apply IH.
  - rewrite bind_ret_l. apply IH.
Qed.

(** With a [-to] the switch knows, an invocation opens with the history fetch
    through the migrator's configuration. *)
Lemma migrateRelease_opens (K : Cluster) fl m name ns w :
  recognised (to fl) ->
  exists rest,
    trace (migrateRelease K fl m name ns w)
    = HistoryRun (actionCfg m) name (maxHist fl) :: rest.
Proof.
  intros Hto.
  destruct (helmStorage_recognised m (to fl) ns Hto) as [st Hst].
  destruct (migrateRelease_cases K fl m name ns w)
    as [(e & He & _) | [(st' & w1 & e & _ & _ & Hrun)
                       | (st' & w1 & hist & tr & b & w2 & _ & _ & _ & Hrun)]].
  - congruence.
  - rewrite Hrun. eexists. reflexivity.
  - rewrite Hrun. eexists. reflexivity.
Qed.

(** The revisions an invocation writes are those of the history it fetched. *)
Lemma migrateRelease_created (K : Cluster) fl m name ns w r :
  In r (created (trace (migrateRelease K fl m name ns w))) ->
  exists w1 hist,
    historyRun K (actionCfg m) name (maxHist fl) w = (w1, inr hist)
    /\ In r hist.
Proof.
  destruct (migrateRelease_cases K fl m name ns w)
    as [(e & _ & Hrun) | [(st & w1 & e & _ & _ & Hrun)
                         | (st & w1 & hist & tr & b & w2 & _ & Hh & Hrev & Hrun)]];
    rewrite Hrun; cbn [trace snd created]; try contradiction.
  rewrite (Revisions_created _ _ _ _ _ _ _ Hrev).
  intros Hin. now exists w1, hist.
Qed.

Lemma migrateNamespaceLoop_created (K : Cluster) fl m ns releases :
  history_scoped K (actionCfg m) ->
  forall w r,
    In r (created (trace (migrateNamespaceLoop K fl m ns releases w))) ->
    Namespace r = cfgNamespace (actionCfg m)
    /\ exists r0, In r0 releases /\ Namespace r0 = ns /\ Name r0 = Name r.
Proof.
  intros Hscoped.
  induction releases as [|r0 rest IH]; intros w r; [contradiction|].
  cbn [migrateNamespaceLoop].
  destruct (Namespace r0 =? ns)%string eqn:Hns.
  - rewrite bind_run, logged_run. cbn [value world trace fst snd].
    rewrite !created_app. rewrite !in_app_iff. intros [[Hin|Hin]|Hin].
    + destruct (migrateRelease_created K fl m _ _ _ _ Hin)
        as (w1 & hist & Hh & Hr).
      destruct (Hscoped _ _ _ _ _ _ Hh Hr) as [Hname Hnsr].
      split; [exact Hnsr|]. exists r0.
      split; [now left|]. split; [now apply String.eqb_eq | now symmetry].
    + destruct (value (migrateRelease K fl m (Name r0) ns w)); contradiction.
    + destruct (IH _ _ Hin) as (Hnsr & r1 & Hr1 & Hm).
      split; [exact Hnsr|]. exists r1. split; [now right | exact Hm].
  - rewrite bind_ret_l. intros Hin.
    destruct (IH _ _ Hin) as (Hnsr & r1 & Hr1 & Hm).
    split; [exact Hnsr|]. exists r1. split; [now right | exact Hm].
Qed.

Lemma untouched_app r a b :
  untouched r a -> untouched r b -> untouched r (a ++ b).
Proof.
  intros [Ha1 Ha2] [Hb1 Hb2]. split.
  - rewrite created_app, in_app_iff. tauto.
  - intros cfg n v err Hin. apply in_app_iff in Hin as [Hin|Hin]; eauto.
Qed.

Lemma untouched_lines r tr :
  Forall (fun ev => exists s, ev = Stdout s) tr -> untouched r tr.
Proof.
  intros H. split.
  - induction H as [|ev tr [s ->] _ IH]; [tauto | exact IH].
  - intros cfg n v err Hin.
    rewrite Forall_forall in H. destruct (H _ Hin) as [s Hs]. discriminate.
Qed.

(** Through a configuration of the namespace and from a scoped history,
    [migrateNamespace] writes revisions of that namespace only and deletes
    through that namespace only. *)
Lemma migrateNamespace_untouched (K : Cluster) fl m ns w :
  cfgNamespace (actionCfg m) = ns ->
  history_scoped K (actionCfg m) ->
  (forall r, In r (created (trace (migrateNamespace K fl m ns w))) ->
             Namespace r = ns)
  /\ (forall r', Namespace r' <> ns ->
                 untouched r' (trace (migrateNamespace K fl m ns w))).
Proof.
  intros Hcfg Hscoped.
  assert (Hcreated : forall r,
             In r (created (trace (migrateNamespace K fl m ns w))) ->
             Namespace r = ns).
  { intros r. unfold migrateNamespace. unfold bind at 1, call.
    destruct (listRun K (actionCfg m) false w) as [w1 [e|rs]];
      cbn [trace snd created]; [contradiction|].
    rewrite bind_run. cbn [trace snd ret created]. rewrite created_app.
    cbn [created]. rewrite app_nil_r. intros Hin.
    destruct (migrateNamespaceLoop_created K fl m ns rs Hscoped _ _ Hin)
      as [Hnsr _].
    now rewrite Hnsr. }
  split; [exact Hcreated|].
  intros r' Hne. split.
  - intros Hin. apply Hne. now apply Hcreated.
  - intros cfg n v err Hin [Haddr _].
    pose proof (migrateNamespace_within K fl m ns (cfgDriver (actionCfg m)) w
                  Hcfg eq_refl) as Hw.
    rewrite Forall_forall in Hw. specialize (Hw _ Hin). cbn in Hw.
    destruct Hw as [Hw _]. apply Hne. congruence.
Qed.

Lemma NewMigrator_inr (K : Cluster) kc ns hd w m' w' t :
  NewMigrator K kc ns hd w = (inr m', w', t) ->
  t = [] /\ actionCfg m' = mkActionCfg kc ns hd.
Proof.
  unfold NewMigrator, bind, call, ret.
  destruct (BuildConfigFromFlags K kc w) as [w1 [e|]]; [discriminate|].
  destruct (NewForConfig K kc w1) as [w2 [e|cs]]; [discriminate|].
  destruct (cfgInit K (mkActionCfg kc ns hd) w2) as [w3 [e|]];
    [discriminate|].
  cbn. intros [= <- _ <-]. split; reflexivity.
Qed.

Lemma NewMigrator_trace (K : Cluster) kc ns hd w :
  trace (NewMigrator K kc ns hd w) = [].
Proof.
  unfold NewMigrator, bind, call, ret.
  destruct (BuildConfigFromFlags K kc w) as [w1 [e|]]; [reflexivity|].
  destruct (NewForConfig K kc w1) as [w2 [e|cs]]; [reflexivity|].
  destruct (cfgInit K (mkActionCfg kc ns hd) w2) as [w3 [e|]]; reflexivity.
Qed.

Lemma exitWith_trace (K : Cluster) err w :
  Forall (fun ev => exists s, ev = Stdout s) (trace (exitWith K err w)).
Proof.
  destruct err as [e|]; cbn.
  - constructor; [|constructor]. eexists. reflexivity.
  - constructor.
Qed.

(** The same for the [namespace] subcommand of [main], whose migrator is
    built for the namespace it then migrates. *)
Lemma main_namespace_untouched (K : Cluster) fl args hd w :
  arg 0 args = "namespace" ->
  history_scoped K (mkActionCfg (kubeconfig fl) (namespace fl) hd) ->
  forall r', Namespace r' <> namespace fl ->
             untouched r' (trace (main K fl args hd w)).
Proof.
  intros Hsub Hscoped r' Hne. unfold main. rewrite Hsub.
  cbn [String.eqb Ascii.eqb Bool.eqb]. rewrite bind_run.
  destruct (NewMigrator K (kubeconfig fl) (namespace fl) hd w)
    as [[[e|m] w1] t1] eqn:Hm; cbn [value world trace fst snd].
  - pose proof (NewMigrator_trace K (kubeconfig fl) (namespace fl) hd w) as Ht.
    rewrite Hm in Ht. cbn in Ht. subst t1. cbn [app].
    apply untouched_lines. cbn. constructor; [|constructor].
    eexists. reflexivity.
  - destruct (NewMigrator_inr K _ _ _ _ _ _ _ Hm) as [-> Hcfg].
    cbn [app]. rewrite bind_run. cbn [trace snd].
    apply untouched_app.
    + apply migrateNamespace_untouched; [now rewrite Hcfg | now rewrite Hcfg |
                                         exact Hne].
    + apply untouched_lines, exitWith_trace.
Qed.

(** ** [migrateNamespace] and [migrateAll] *)

(** C5.  [migrateNamespace] invokes the primitive for the listed releases of
    the given namespace, each in turn with its name and that namespace, and
    for no other: it runs as if the listing held only these, and the iteration
    of a release of any other namespace does nothing.  When the migrator's
    configuration is that of the namespace, as [main] builds it, and the
    history the SDK returns through it is scoped to it, every revision written
    is of that namespace and every release of another namespace is left
    untouched: no create is performed for it and no delete.  The [namespace]
    subcommand of [main] leaves them untouched likewise. *)
Theorem migrateNamespace_only_matching (K : Cluster) fl m ns w w1 releases :
  listRun K (actionCfg m) false w = (w1, inr releases) ->
  migrateNamespace K fl m ns w
  = (None,
     world (migrateNamespaceLoop K fl m ns
              (filter (fun r => (Namespace r =? ns)%string) releases) w1),
     ListRun (actionCfg m) false
       :: trace (migrateNamespaceLoop K fl m ns
                   (filter (fun r => (Namespace r =? ns)%string) releases) w1))
  /\ (exists segs,
        trace (migrateNamespace K fl m ns w)
        = ListRun (actionCfg m) false :: List.concat segs
        /\ Forall2 (fun r seg => Namespace r = ns
                                 /\ Forall (of_release m (Name r) ns) seg)
             (filter (fun r => (Namespace r =? ns)%string) releases) segs)
  /\ (forall r rest w',
        Namespace r <> ns ->
        migrateNamespaceLoop K fl m ns (r :: rest) w'
        = migrateNamespaceLoop K fl m ns rest w')
  /\ (exists tr w',
        migrateNamespace K fl m ns w
        = (None, w', ListRun (actionCfg m) false :: tr)
        /\ Invocations K fl m (fun _ => ns)
             (filter (fun r => (Namespace r =? ns)%string) releases) w1 tr w')
  /\ (cfgNamespace (actionCfg m) = ns ->
      history_scoped K (actionCfg m) ->
      (forall r, In r (created (trace (migrateNamespace K fl m ns w))) ->
                 Namespace r = ns
                 /\ exists r0, In r0 releases /\ Namespace r0 = ns
                               /\ Name r0 = Name r)
      /\ (forall r', Namespace r' <> ns ->
                     untouched r' (trace (migrateNamespace K fl m ns w))))
  /\ (forall args hd w0,
        arg 0 args = "namespace" ->
        history_scoped K (mkActionCfg (kubeconfig fl) (namespace fl) hd) ->
        forall r', Namespace r' <> namespace fl ->
                   untouched r' (trace (main K fl args hd w0))).
Proof.
  intros Hl.
  assert (Hrun : migrateNamespace K fl m ns w
    = (None, world (migrateNamespaceLoop K fl m ns releases w1),
       ListRun (actionCfg m) false
         :: trace (migrateNamespaceLoop K fl m ns releases w1))).
  { unfold migrateNamespace. unfold bind at 1, call. rewrite Hl.
    rewrite bind_run. cbn. now rewrite app_nil_r. }
  split; [|split; [|split; [|split; [|split]]]].
  - rewrite Hrun. now rewrite migrateNamespaceLoop_filter.
  - rewrite Hrun. cbn [trace snd].
    destruct (migrateNamespaceLoop_segments K fl m ns releases w1)
      as (segs & -> & Hsegs).
    exists segs. split; [reflexivity | exact Hsegs].
  - intros r rest w' Hne. cbn [migrateNamespaceLoop].
    apply String.eqb_neq in Hne. rewrite Hne. apply bind_ret_l.
  - exists (trace (migrateNamespaceLoop K fl m ns releases w1)),
      (world (migrateNamespaceLoop K fl m ns releases w1)).
    split; [exact Hrun | apply migrateNamespaceLoop_invocations].
  - intros Hcfg Hscoped.
    destruct (migrateNamespace_untouched K fl m ns w Hcfg Hscoped)
      as [Hcreated Huntouched].
    split; [|exact Huntouched].
    intros r Hin. split; [now apply Hcreated|].
    rewrite Hrun in Hin. cbn [trace snd created] in Hin.
    destruct (migrateNamespaceLoop_created K fl m ns releases Hscoped _ _ Hin)
      as [_ Hr0].
    exact Hr0.
  - intros args hd w0. apply main_namespace_untouched.
Qed.

(** C7.  [migrateNamespace] and [migrateAll] return the listing's error when
    the listing fails and [nil] whenever it succeeds, whatever the releases'
    migrations returned. *)
Theorem listing_error_only (K : Cluster) fl m ns w :
  value (migrateNamespace K fl m ns w)
  = match snd (listRun K (actionCfg m) false w) with
    | inl e => Some e
    | inr _ => None
    end
  /\ value (migrateAll K fl m w)
     = match snd (listRun K (actionCfg m) true w) with
       | inl e => Some e
       | inr _ => None
       end.
Proof.
  split.
  - unfold migrateNamespace. unfold bind at 1, call.
    destruct (listRun K (actionCfg m) false w) as [w1 [e|releases]];
      [reflexivity|].
    rewrite bind_run. reflexivity.
  - unfold migrateAll. unfold bind at 1, call.
    destruct (listRun K (actionCfg m) true w) as [w1 [e|releases]];
      [reflexivity|].
    rewrite bind_run. reflexivity.
Qed.

(** C10.  [NewMigrator] builds the one action configuration from the
    namespace it is given, which in [main] is the [-namespace] flag's.
    [migrateAll] lists through it with [AllNamespaces] and then invokes the
    primitive for every listed release, in the listing's order, with that
    release's name and that release's own namespace: each invocation writes to
    a driver over the namespace it is given, while its history fetch, with
    which it opens, and its deletes go through the migrator's one
    configuration. *)
Theorem migrateAll_namespaces (K : Cluster) fl m w :
  (forall kc ns hd w0 m',
      value (NewMigrator K kc ns hd w0) = inr m' ->
      actionCfg m' = mkActionCfg kc ns hd)
  /\ (forall w1 releases,
        listRun K (actionCfg m) true w = (w1, inr releases) ->
        exists segs,
          trace (migrateAll K fl m w)
          = ListRun (actionCfg m) true :: List.concat segs
          /\ Forall2 (fun r seg =>
                        Forall (of_release m (Name r) (Namespace r)) seg)
               releases segs)
  /\ (forall args hd w0 m' w1 t1,
        arg 0 args = "all" ->
        NewMigrator K (kubeconfig fl) (namespace fl) hd w0 = (inr m', w1, t1) ->
        cfgNamespace (actionCfg m') = namespace fl
        /\ exists rest,
            trace (main K fl args hd w0)
            = (t1 ++ trace (migrateAll K fl m' w1) ++ rest)%list)
  /\ (forall w1 releases,
        listRun K (actionCfg m) true w = (w1, inr releases) ->
        exists tr w',
          migrateAll K fl m w = (None, w', ListRun (actionCfg m) true :: tr)
          /\ Invocations K fl m Namespace releases w1 tr w'
          /\ (recognised (to fl) -> fetched tr = map Name releases))
  /\ (forall name ns w',
        Forall (of_release m name ns) (trace (migrateRelease K fl m name ns w'))
        /\ (recognised (to fl) ->
            exists rest,
              trace (migrateRelease K fl m name ns w')
              = HistoryRun (actionCfg m) name (maxHist fl) :: rest)).
Proof.
  assert (Hnew : forall kc ns hd w0 m',
             value (NewMigrator K kc ns hd w0) = inr m' ->
             actionCfg m' = mkActionCfg kc ns hd).
  { intros kc ns hd w0 m'. unfold NewMigrator, bind, call, ret.
    destruct (BuildConfigFromFlags K kc w0) as [w1 [e|]]; [discriminate|].
    destruct (NewForConfig K kc w1) as [w2 [e|cs]]; [discriminate|].
    destruct (cfgInit K (mkActionCfg kc ns hd) w2) as [w3 [e|]];
      [discriminate|].
    cbn. intros [= <-]. reflexivity. }
  assert (Hrun : forall w1 releases,
             listRun K (actionCfg m) true w = (w1, inr releases) ->
             migrateAll K fl m w
             = (None, world (migrateAllLoop K fl m releases w1),
                ListRun (actionCfg m) true
                  :: trace (migrateAllLoop K fl m releases w1))).
  { intros w1 releases Hl. unfold migrateAll. unfold bind at 1, call.
    rewrite Hl, bind_run. cbn. now rewrite app_nil_r. }
  split; [exact Hnew|]. split; [|split; [|split]].
  - intros w1 releases Hl. rewrite (Hrun _ _ Hl). cbn [trace snd].
    destruct (migrateAllLoop_segments K fl m releases w1) as (segs & -> & Hsegs).
    exists segs. split; [reflexivity | exact Hsegs].
  - intros args hd w0 m' w1 t1 Hall Hm. split.
    + rewrite (Hnew (kubeconfig fl) (namespace fl) hd w0 m');
        [reflexivity | now rewrite Hm].
    + unfold main. rewrite Hall. cbn [String.eqb Ascii.eqb Bool.eqb].
      unfold bind at 1. rewrite Hm. rewrite bind_run. cbn [trace snd].
      eexists. reflexivity.
  - intros w1 releases Hl.
    exists (trace (migrateAllLoop K fl m releases w1)),
      (world (migrateAllLoop K fl m releases w1)).
    split; [exact (Hrun _ _ Hl)|].
    split; [apply migrateAllLoop_invocations|].
    intros Hto. clear Hl Hrun. revert w1.
    induction releases as [|r rest IH]; intros w1; [reflexivity|].
    cbn [migrateAllLoop map]. rewrite bind_run, logged_run.
    cbn [value world trace fst snd]. rewrite !fetched_app.
    rewrite (migrateRelease_fetched K fl m _ _ w1 Hto), IH.
    destruct (value (migrateRelease K fl m (Name r) (Namespace r) w1));
      reflexivity.
  - intros name ns w'. split; [apply migrateRelease_events|].
    apply migrateRelease_opens.
Qed.

(** ** [main] *)

(** C8.  On each top-level error (no subcommand, a failed [NewMigrator], no
    release name, an unknown subcommand, an error returned by the operation
    invoked) [main] prints the error's message as its last line on standard
    output and exits with code 1; and a run without such an error exits with
    code 0. *)
Theorem main_error_exit (K : Cluster) fl args hd w :
  (forall e w' tr,
      TopLevelError K fl args hd w e w' tr ->
      main K fl args hd w = (1, w', (tr ++ [Stdout (e ++ nl)])%list))
  /\ ((exists e w' tr, TopLevelError K fl args hd w e w' tr)
      \/ value (main K fl args hd w) = 0).
Proof.
  split.
  - intros e w' tr H. unfold main.
    destruct H as [H0 | e w1 t1 H0 Hm | m w1 t1 H0 Hm H1
                   | m w1 t1 H0 Hr Hn Ha Hm
                   | m w1 t1 e w2 t2 H0 Hm H1 Hop
                   | m w1 t1 e w2 t2 H0 Hm Hop
                   | m w1 t1 e w2 t2 H0 Hm Hop].
    + rewrite H0. reflexivity.
    + apply String.eqb_neq in H0. rewrite H0.
      unfold bind at 1. rewrite Hm. reflexivity.
    + rewrite H0. cbn [String.eqb Ascii.eqb Bool.eqb].
      unfold bind at 1. rewrite Hm. rewrite H1. reflexivity.
    + apply String.eqb_neq in H0, Hr, Hn, Ha. rewrite H0, Hr, Hn, Ha.
      unfold bind at 1. rewrite Hm. reflexivity.
    + rewrite H0. cbn [String.eqb Ascii.eqb Bool.eqb].
      apply String.eqb_neq in H1. unfold bind at 1. rewrite Hm. rewrite H1.
      unfold bind at 1. rewrite Hop. cbn. now rewrite app_assoc.
    + rewrite H0. cbn [String.eqb Ascii.eqb Bool.eqb].
      unfold bind at 1. rewrite Hm.
      unfold bind at 1. rewrite Hop. cbn. now rewrite app_assoc.
    + rewrite H0. cbn [String.eqb Ascii.eqb Bool.eqb].
      unfold bind at 1. rewrite Hm.
      unfold bind at 1. rewrite Hop. cbn. now rewrite app_assoc.
  - unfold main.
    destruct (arg 0 args =? "")%string eqn:E0.
    { left. apply String.eqb_eq in E0. eauto using MissingSubcommand. }
    apply String.eqb_neq in E0.
    destruct (NewMigrator K (kubeconfig fl) (namespace fl) hd w)
      as [[[e|m] w1] t1] eqn:Hm.
    { left. eauto using ConstructionFailure. }
    unfold bind at 1. rewrite Hm.
    destruct (arg 0 args =? "release")%string eqn:Er.
    { apply String.eqb_eq in Er.
      destruct (arg 1 args =? "")%string eqn:E1.
      { left. apply String.eqb_eq in E1. eauto using MissingReleaseName. }
      apply String.eqb_neq in E1.
      destruct (migrateRelease K fl m (arg 1 args) (namespace fl) w1)
        as [[[e|] w2] t2] eqn:Hop.
      { left. eauto using ReleaseFailed. }
      right. unfold bind. rewrite Hop. reflexivity. }
    apply String.eqb_neq in Er.
    destruct (arg 0 args =? "namespace")%string eqn:En.
    { apply String.eqb_eq in En.
      destruct (migrateNamespace K fl m (namespace fl) w1)
        as [[[e|] w2] t2] eqn:Hop.
      { left. eauto using NamespaceFailed. }
      right. unfold bind. rewrite Hop. reflexivity. }
    apply String.eqb_neq in En.
    destruct (arg 0 args =? "all")%string eqn:Ea.
    { apply String.eqb_eq in Ea.
      destruct (migrateAll K fl m w1) as [[[e|] w2] t2] eqn:Hop.
      { left. eauto using AllFailed. }
      right. unfold bind. rewrite Hop. reflexivity. }
    apply String.eqb_neq in Ea.
    left. eauto using UnknownSubcommand.
Qed.

(** ** The theorems at work on the in-memory cluster *)

(** On [w0] the delete of revision 3 of [web] follows its write, and revision
    1, whose write fails, is not deleted. *)
Lemma migrateRelease_delete_only_after_write_witness :
  (exists pre' st r,
      firstn 7 (trace (migrateRelease Memory.cluster (Memory.flags "configmap")
                         Memory.mig "web" "default" Memory.w0))
      = (pre' ++ [StorageCreate st r None])%list /\ Version r = 3
      /\ Memory.cfg_default = actionCfg Memory.mig /\ "web" = "web")
  /\ ~ In (ReleasesDelete Memory.cfg_default "web" 1 None)
          (trace (migrateRelease Memory.cluster (Memory.flags "configmap")
                    Memory.mig "web" "default" Memory.w0)).
Proof.
  destruct (migrateRelease_delete_only_after_write Memory.cluster
              (Memory.flags "configmap") Memory.mig "web" "default" Memory.w0)
    as [Hafter Hnever].
  split.
  - apply (Hafter _ Memory.cfg_default "web" 3 None
             (skipn 8 (trace (migrateRelease Memory.cluster
                                (Memory.flags "configmap") Memory.mig "web"
                                "default" Memory.w0)))).
    vm_compute. reflexivity.
  - apply Hnever. intros st r err Hin Hv. vm_compute in Hin.
    repeat (destruct Hin as [Hin|Hin];
            [ try discriminate Hin; injection Hin as <- <- <-;
              try discriminate; cbn in Hv; discriminate Hv | ]).
    contradiction.
Defined.

(** On [w_ok] the three revisions of [web] are written and deleted, and the
    cluster ends as [w_moved]. *)
Lemma migrateRelease_all_succeed_witness :
  helmStorage Memory.mig "configmap" "default" = inr Memory.cm_default
  /\ historyRun Memory.cluster Memory.cfg_default "web" 10 Memory.w_ok
     = (Memory.w_ok, inr [Memory.web 1; Memory.web 2; Memory.web 3])
  /\ moveRevisions Memory.cluster Memory.cm_default Memory.cfg_default "web"
       [Memory.web 1; Memory.web 2; Memory.web 3] Memory.w_ok
     = Some Memory.w_moved
  /\ value (migrateRelease Memory.cluster (Memory.flags "configmap")
              Memory.mig "web" "default" Memory.w_ok) = None
  /\ world (migrateRelease Memory.cluster (Memory.flags "configmap")
              Memory.mig "web" "default" Memory.w_ok) = Memory.w_moved
  /\ List.length
       (created (trace (migrateRelease Memory.cluster (Memory.flags "configmap")
                          Memory.mig "web" "default" Memory.w_ok))) = 3%nat
  /\ List.length
       (deleted (trace (migrateRelease Memory.cluster (Memory.flags "configmap")
                          Memory.mig "web" "default" Memory.w_ok))) = 3%nat
  /\ existsb failure
       (trace (migrateRelease Memory.cluster (Memory.flags "configmap")
                 Memory.mig "web" "default" Memory.w_ok)) = false.
Proof.
  assert (Hst : helmStorage Memory.mig (to (Memory.flags "configmap")) "default"
                = inr Memory.cm_default) by reflexivity.
  assert (Hh : historyRun Memory.cluster (actionCfg Memory.mig) "web"
                 (maxHist (Memory.flags "configmap")) Memory.w_ok
               = (Memory.w_ok, inr [Memory.web 1; Memory.web 2; Memory.web 3]))
    by reflexivity.
  assert (Hmove : moveRevisions Memory.cluster Memory.cm_default
                    (actionCfg Memory.mig) "web"
                    [Memory.web 1; Memory.web 2; Memory.web 3] Memory.w_ok
                  = Some Memory.w_moved) by (vm_compute; reflexivity).
  destruct (migrateRelease_all_succeed Memory.cluster (Memory.flags "configmap")
              Memory.mig "web" "default" Memory.cm_default Memory.w_ok
              Memory.w_ok _ Hst Hh) as [Hrun Hiff].
  destruct (Hrun Memory.w_moved Hmove) as (Hv & Hw & _ & _ & _ & Hc & Hd).
  split; [exact Hst|]. split; [exact Hh|]. split; [exact Hmove|].
  split; [exact Hv|]. split; [exact Hw|]. split; [exact Hc|].
  split; [exact Hd|].
  apply (proj2 Hiff). exists Memory.w_moved. exact Hmove.
Defined.

(** On [w0] the write of revision 1 fails and the delete of revision 2
    fails; all three revisions are written, and 2 and 3 get their delete. *)
Lemma migrateRelease_continues_witness :
  helmStorage Memory.mig "configmap" "default" = inr Memory.cm_default
  /\ historyRun Memory.cluster Memory.cfg_default "web" 10 Memory.w0
     = (Memory.w0, inr [Memory.web 1; Memory.web 2; Memory.web 3])
  /\ created (trace (migrateRelease Memory.cluster (Memory.flags "configmap")
                       Memory.mig "web" "default" Memory.w0))
     = [Memory.web 1; Memory.web 2; Memory.web 3]
  /\ deleted (trace (migrateRelease Memory.cluster (Memory.flags "configmap")
                       Memory.mig "web" "default" Memory.w0))
     = [2; 3]
  /\ (exists before rest tr',
         [Memory.web 1; Memory.web 2; Memory.web 3]
         = (before ++ Memory.web 1 :: rest)%list
         /\ created tr' = rest).
Proof.
  assert (Hst : helmStorage Memory.mig (to (Memory.flags "configmap")) "default"
                = inr Memory.cm_default) by reflexivity.
  assert (Hh : historyRun Memory.cluster (actionCfg Memory.mig) "web"
                 (maxHist (Memory.flags "configmap")) Memory.w0
               = (Memory.w0, inr [Memory.web 1; Memory.web 2; Memory.web 3]))
    by reflexivity.
  destruct (migrateRelease_continues Memory.cluster (Memory.flags "configmap")
              Memory.mig "web" "default" Memory.cm_default Memory.w0
              Memory.w0 _ Hst Hh) as (Hc & Hd & Hf).
  split; [exact Hst|]. split; [exact Hh|]. split; [exact Hc|]. split.
  - rewrite Hd. vm_compute. reflexivity.
  - destruct (Hf [HistoryRun Memory.cfg_default "web" 10] Memory.cm_default
                (Memory.web 1) "release: already exists"
                (skipn 2 (trace (migrateRelease Memory.cluster
                                   (Memory.flags "configmap") Memory.mig "web"
                                   "default" Memory.w0))))
      as (before & rest & tr' & failed' & Hsplit & _ & _ & Hrest).
    + vm_compute. reflexivity.
    + exists before, rest, tr'. split; assumption.
Defined.

(** On [w0] the run of [web] has failures and returns the aggregate error. *)
Lemma migrateRelease_error_iff_failure_witness :
  helmStorage Memory.mig "configmap" "default" = inr Memory.cm_default
  /\ historyRun Memory.cluster Memory.cfg_default "web" 10 Memory.w0
     = (Memory.w0, inr [Memory.web 1; Memory.web 2; Memory.web 3])
  /\ value (migrateRelease Memory.cluster (Memory.flags "configmap")
              Memory.mig "web" "default" Memory.w0)
     = Some "failed to migrate release web".
Proof.
  assert (Hst : helmStorage Memory.mig (to (Memory.flags "configmap")) "default"
                = inr Memory.cm_default) by reflexivity.
  assert (Hh : historyRun Memory.cluster (actionCfg Memory.mig) "web"
                 (maxHist (Memory.flags "configmap")) Memory.w0
               = (Memory.w0, inr [Memory.web 1; Memory.web 2; Memory.web 3]))
    by reflexivity.
  destruct (migrateRelease_error_iff_failure Memory.cluster
              (Memory.flags "configmap") Memory.mig "web" "default"
              Memory.cm_default Memory.w0 Memory.w0 _ Hst Hh) as (_ & _ & Hf).
  split; [exact Hst|]. split; [exact Hh|].
  apply Hf. vm_compute. reflexivity.
Defined.

(** [-to deployment] is refused with nothing done. *)
Lemma migrateRelease_unknown_kind_witness :
  migrateRelease Memory.cluster (Memory.flags "deployment") Memory.mig "web"
    "default" Memory.w0
  = (Some "unknown resource type deployment", Memory.w0, []).
Proof.
  apply (migrateRelease_unknown_kind Memory.cluster (Memory.flags "deployment")
           Memory.mig "web" "default" Memory.w0); cbn; discriminate.
Defined.

(** The in-memory source driver is scoped to the configuration's namespace,
    when that is not the empty one. *)
Lemma memory_history_scoped cfg :
  cfgNamespace cfg <> "" -> history_scoped Memory.cluster cfg.
Proof.
  intros Hns name max w w' hist r Hh Hin. cbn in Hh. unfold Memory.history in Hh.
  destruct (Memory.reachable w); [|discriminate].
  destruct (filter (Memory.held cfg name) (Memory.source w)) as [|r0 l] eqn:E;
    [discriminate|].
  injection Hh as _ <-. rewrite <- E in Hin.
  apply filter_In in Hin as [_ Hheld].
  unfold Memory.held, Memory.in_scope in Hheld.
  apply String.eqb_neq in Hns. rewrite Hns in Hheld. cbn [orb] in Hheld.
  apply andb_true_iff in Hheld as [H1 H2].
  split; now apply String.eqb_eq.
Qed.

(** With a [web] in [default] and one in [prod], [migrateNamespace] of [prod]
    through a configuration of [prod] works on the two releases of [prod] and
    leaves the [web] of [default] untouched; so does [main] of [default] with
    the [api] of [prod]. *)
Lemma migrateNamespace_only_matching_witness :
  listRun Memory.cluster (actionCfg Memory.mig_prod) false Memory.w_two
  = (Memory.w_two, inr [Memory.web_prod; Memory.api1])
  /\ cfgNamespace (actionCfg Memory.mig_prod) = "prod"
  /\ history_scoped Memory.cluster (actionCfg Memory.mig_prod)
  /\ (exists tr w',
         migrateNamespace Memory.cluster (Memory.flags "secrets")
           Memory.mig_prod "prod" Memory.w_two
         = (None, w', ListRun (actionCfg Memory.mig_prod) false :: tr)
         /\ Invocations Memory.cluster (Memory.flags "secrets") Memory.mig_prod
              (fun _ => "prod")
              (filter (fun r => (Namespace r =? "prod")%string)
                 [Memory.web_prod; Memory.api1]) Memory.w_two tr w')
  /\ untouched (Memory.web 1)
       (trace (migrateNamespace Memory.cluster (Memory.flags "secrets")
                 Memory.mig_prod "prod" Memory.w_two))
  /\ migrateNamespaceLoop Memory.cluster (Memory.flags "secrets")
       Memory.mig_prod "prod" [Memory.web 1; Memory.api1] Memory.w_two
     = migrateNamespaceLoop Memory.cluster (Memory.flags "secrets")
         Memory.mig_prod "prod" [Memory.api1] Memory.w_two
  /\ untouched Memory.api1
       (trace (main Memory.cluster (Memory.flags "secrets") ["namespace"]
                 "secret" Memory.w_two)).
Proof.
  assert (Hl : listRun Memory.cluster (actionCfg Memory.mig_prod) false
                 Memory.w_two
               = (Memory.w_two, inr [Memory.web_prod; Memory.api1]))
    by reflexivity.
  assert (Hcfg : cfgNamespace (actionCfg Memory.mig_prod) = "prod")
    by reflexivity.
  assert (Hscoped : history_scoped Memory.cluster (actionCfg Memory.mig_prod))
    by (apply memory_history_scoped; cbn; discriminate).
  destruct (migrateNamespace_only_matching Memory.cluster
              (Memory.flags "secrets") Memory.mig_prod "prod" Memory.w_two
              Memory.w_two _ Hl) as (_ & _ & Hskip & Hinv & Hleft & Hmain).
  split; [exact Hl|]. split; [exact Hcfg|]. split; [exact Hscoped|].
  split; [exact Hinv|]. split; [|split].
  - apply (proj2 (Hleft Hcfg Hscoped)). cbn. discriminate.
  - apply Hskip. cbn. discriminate.
  - apply (Hmain ["namespace"] "secret" Memory.w_two).
    + reflexivity.
    + apply memory_history_scoped. cbn. discriminate.
    + cbn. discriminate.
Defined.

(** No subcommand, and a release whose migration fails. *)
Lemma main_error_exit_witness :
  main Memory.cluster (Memory.flags "configmap") [] "secret" Memory.w0
  = (1, Memory.w0, [Stdout ("subprogram is required" ++ nl)])
  /\ main Memory.cluster (Memory.flags "configmap") ["release"; "web"] "secret"
       Memory.w0
     = (1,
        world (migrateRelease Memory.cluster (Memory.flags "configmap")
                 Memory.mig "web" "default" Memory.w0),
        (([] ++ trace (migrateRelease Memory.cluster (Memory.flags "configmap")
                         Memory.mig "web" "default" Memory.w0))
         ++ [Stdout ("failed to migrate release web" ++ nl)])%list).
Proof.
  split.
  - apply (proj1 (main_error_exit Memory.cluster (Memory.flags "configmap") []
                    "secret" Memory.w0) _ _ []).
    apply MissingSubcommand. reflexivity.
  - apply (proj1 (main_error_exit Memory.cluster (Memory.flags "configmap")
                    ["release"; "web"] "secret" Memory.w0)).
    apply (ReleaseFailed Memory.cluster (Memory.flags "configmap")
             ["release"; "web"] "secret" Memory.w0 Memory.mig Memory.w0 []).
    + reflexivity.
    + reflexivity.
    + cbn. discriminate.
    + vm_compute. reflexivity.
Defined.

(** [migrateAll] on [w0] through the configuration of [default]: five
    releases listed, five invocations, five fetches. *)
Lemma migrateAll_namespaces_witness :
  actionCfg Memory.mig = mkActionCfg Memory.kube "default" "secret"
  /\ (exists segs,
         trace (migrateAll Memory.cluster (Memory.flags "configmap") Memory.mig
                  Memory.w0)
         = ListRun (actionCfg Memory.mig) true :: List.concat segs
         /\ Forall2 (fun r seg =>
                       Forall (of_release Memory.mig (Name r) (Namespace r)) seg)
              [Memory.web 1; Memory.web 2; Memory.web 3; Memory.db1; Memory.api1]
              segs)
  /\ (cfgNamespace (actionCfg Memory.mig) = "default"
      /\ exists rest,
          trace (main Memory.cluster (Memory.flags "configmap") ["all"]
                   "secret" Memory.w0)
          = ([] ++ trace (migrateAll Memory.cluster (Memory.flags "configmap")
                            Memory.mig Memory.w0) ++ rest)%list)
  /\ (exists tr w',
         migrateAll Memory.cluster (Memory.flags "configmap") Memory.mig
           Memory.w0
         = (None, w', ListRun (actionCfg Memory.mig) true :: tr)
         /\ Invocations Memory.cluster (Memory.flags "configmap") Memory.mig
              Namespace
              [Memory.web 1; Memory.web 2; Memory.web 3; Memory.db1; Memory.api1]
              Memory.w0 tr w'
         /\ (recognised "configmap" ->
             fetched tr = ["web"; "web"; "web"; "db"; "api"]))
  /\ (exists rest,
         trace (migrateRelease Memory.cluster (Memory.flags "configmap")
                  Memory.mig "api" "prod" Memory.w0)
         = HistoryRun Memory.cfg_default "api" 10 :: rest)
  /\ (exists tr w',
         migrateAll Memory.cluster (Memory.flags "configmap") Memory.mig_any
           Memory.w_ok
         = (None, w', ListRun (actionCfg Memory.mig_any) true :: tr)
         /\ Invocations Memory.cluster (Memory.flags "configmap")
              Memory.mig_any Namespace
              [Memory.web 1; Memory.web 2; Memory.web 3; Memory.db1; Memory.api1]
              Memory.w_ok tr w'
         /\ (recognised "configmap" ->
             fetched tr = ["web"; "web"; "web"; "db"; "api"])).
Proof.
  destruct (migrateAll_namespaces Memory.cluster (Memory.flags "configmap")
              Memory.mig Memory.w0) as (Hcfg & Hsegs & Hmain & Hinv & Hone).
  split; [|split; [|split; [|split; [|split]]]].
  6:{ apply (proj1 (proj2 (proj2 (proj2
               (migrateAll_namespaces Memory.cluster (Memory.flags "configmap")
                  Memory.mig_any Memory.w_ok)))) Memory.w_ok).
      reflexivity. }
  - apply (Hcfg Memory.kube "default" "secret" Memory.w0 Memory.mig).
    reflexivity.
  - apply (Hsegs Memory.w0). reflexivity.
  - apply (Hmain ["all"] "secret" Memory.w0 Memory.mig Memory.w0 []);
      reflexivity.
  - apply (Hinv Memory.w0). reflexivity.
  - apply (proj2 (Hone "api" "prod" Memory.w0)). left. reflexivity.
Defined.

(** On a cluster that cannot be reached the listing's error is returned, and
    on [w0] the failed migration of [web] is only printed. *)
Example migrateNamespace_runs :
  migrateNamespace Memory.cluster (Memory.flags "configmap") Memory.mig
    "default" Memory.w_down
  = (Some "Kubernetes cluster unreachable", Memory.w_down,
     [ListRun Memory.cfg_default false])
  /\ value (migrateNamespace Memory.cluster (Memory.flags "configmap")
              Memory.mig "default" Memory.w0) = None
  /\ In (Println "failed to migrate release web")
        (trace (migrateNamespace Memory.cluster (Memory.flags "configmap")
                  Memory.mig "default" Memory.w0)).
Proof.
  split; [reflexivity|]. split; [reflexivity|].
  vm_compute. do 10 right. left. reflexivity.
Qed.

(** * Further properties of the program *)

(** ** The switch on [-to] *)

Lemma helmStorage_unknown m to ns :
  to <> "configmap" -> to <> "configmaps" ->
  to <> "secret" -> to <> "secrets" ->
  helmStorage m to ns = inl ("unknown resource type " ++ to).
Proof.
  intros H1 H2 H3 H4. unfold helmStorage.
  apply String.eqb_neq in H1, H2, H3, H4.
  now rewrite H1, H2, H3, H4.
Qed.

Lemma helmStorage_inr_recognised m to ns st :
  helmStorage m to ns = inr st -> recognised to.
Proof.
  unfold helmStorage, recognised.
  destruct (to =? "configmap")%string eqn:E1;
    [apply String.eqb_eq in E1; auto|].
  destruct (to =? "configmaps")%string eqn:E2;
    [apply String.eqb_eq in E2; auto|].
  destruct (to =? "secret")%string eqn:E3;
    [apply String.eqb_eq in E3; auto|].
  destruct (to =? "secrets")%string eqn:E4;
    [apply String.eqb_eq in E4; auto 6|].
  discriminate.
Qed.

(** The switch selects a driver exactly for the four names, the same for
    every migrator and namespace; the kind follows the name, the driver is
    built on the migrator's clientset over the namespace given. *)
Theorem helmStorage_selects m to ns :
  ((exists st, helmStorage m to ns = inr st) <-> recognised to)
  /\ (forall st, helmStorage m to ns = inr st ->
        st = mkStorage (clientset m)
               (if (to =? "configmap")%string || (to =? "configmaps")%string
                then ConfigMaps else Secrets) ns
        /\ (storageKind st = ConfigMaps <->
            to = "configmap" \/ to = "configmaps")
        /\ (storageKind st = Secrets <-> to = "secret" \/ to = "secrets")).
Proof.
  split.
  - split; [|apply helmStorage_recognised].
    intros [st Hst]. exact (helmStorage_inr_recognised _ _ _ _ Hst).
  - intros st. unfold helmStorage.
    destruct (to =? "configmap")%string eqn:E1;
      destruct (to =? "configmaps")%string eqn:E2;
      destruct (to =? "secret")%string eqn:E3;
      destruct (to =? "secrets")%string eqn:E4;
      cbn [orb]; try discriminate; intros [= <-]; cbn [storageKind];
      repeat match goal with
             | H : (_ =? _)%string = true |- _ => apply String.eqb_eq in H
             | H : (_ =? _)%string = false |- _ => apply String.eqb_neq in H
             end;
      (split; [reflexivity|]); split; split;
      try discriminate; try (intros [?|?]; congruence); auto.
Qed.

(** ** Nothing to migrate *)

(** When the history fetch fails, [migrateRelease] returns that very error;
    when it returns no revision, [migrateRelease] returns [nil].  Either way
    the world is as the fetch left it and the fetch, made with [-max] through
    the migrator's configuration, is the only call made: nothing is written
    and nothing deleted. *)
Theorem migrateRelease_no_history (K : Cluster) fl m name ns st w w1 :
  helmStorage m (to fl) ns = inr st ->
  (forall e,
      historyRun K (actionCfg m) name (maxHist fl) w = (w1, inl e) ->
      value (migrateRelease K fl m name ns w) = Some e
      /\ world (migrateRelease K fl m name ns w) = w1
      /\ calls (trace (migrateRelease K fl m name ns w))
         = [HistoryRun (actionCfg m) name (maxHist fl)])
  /\ (historyRun K (actionCfg m) name (maxHist fl) w = (w1, inr []) ->
      value (migrateRelease K fl m name ns w) = None
      /\ world (migrateRelease K fl m name ns w) = w1
      /\ calls (trace (migrateRelease K fl m name ns w))
         = [HistoryRun (actionCfg m) name (maxHist fl)]).
Proof.
  intros Hst. split.
  - intros e Hh. unfold migrateRelease. rewrite Hst.
    unfold bind, call. rewrite Hh. repeat split.
  - intros Hh. rewrite (migrateRelease_run K fl m name ns st w w1 [] Hst Hh).
    repeat split.
Qed.

(** [migrateRelease] returns [nil] exactly when [-to] is one of the four
    names, the history fetch succeeds and no write or delete of the run
    fails. *)
Theorem migrateRelease_nil_iff (K : Cluster) fl m name ns w :
  value (migrateRelease K fl m name ns w) = None
  <-> recognised (to fl)
      /\ (exists hist,
             snd (historyRun K (actionCfg m) name (maxHist fl) w) = inr hist)
      /\ existsb failure (trace (migrateRelease K fl m name ns w)) = false.
Proof.
  destruct (migrateRelease_cases K fl m name ns w)
    as [(e & Hst & Hrun) | [(st & w1 & e & Hst & Hh & Hrun)
                           | (st & w1 & hist & tr & b & w2 & Hst & Hh & Hrev & Hrun)]];
    rewrite Hrun; cbn [value trace fst snd existsb failure orb].
  - split; [discriminate|]. intros (Hto & _ & _).
    destruct (helmStorage_recognised m (to fl) ns Hto) as [st Hst'].
    congruence.
  - split; [discriminate|]. intros (_ & [hist Hhist] & _).
    rewrite Hh in Hhist. discriminate.
  - pose proof (Revisions_flag _ _ _ _ _ _ _ Hrev) as Hb. cbn [orb] in Hb.
    rewrite Hh. cbn [snd]. split.
    + intros Hv. split; [exact (helmStorage_inr_recognised _ _ _ _ Hst)|].
      split; [now exists hist|].
      rewrite <- Hb. destruct b; [discriminate | reflexivity].
    + intros (_ & _ & Hok). rewrite Hb, Hok. reflexivity.
Qed.

(** ** The flag and the loop *)

(** What the loop does to the world and what it leaves in the trace does not
    depend on the flag it is entered with, that is on whether an earlier
    revision failed; and the flag, once set, stays set. *)
Theorem migrateRevisions_flag (K : Cluster) m st name hist :
  forall failed w,
    migrateRevisions K m st name hist failed w
    = (failed || value (migrateRevisions K m st name hist false w),
       world (migrateRevisions K m st name hist false w),
       trace (migrateRevisions K m st name hist false w)).
Proof.
  induction hist as [|r rest IH]; intros failed w.
  - cbn. now rewrite orb_false_r.
  - cbn [migrateRevisions]. unfold bind, call, emit.
    destruct (storageCreate K st r w) as [w1 [e|]].
    + rewrite (IH true w1).
      destruct (migrateRevisions K m st name rest false w1) as [[b w2] t2].
      cbn. now rewrite orb_true_r.
    + destruct (releasesDelete K (actionCfg m) name (Version r) w1)
        as [w2 [e|]].
      * rewrite (IH true w2).
        destruct (migrateRevisions K m st name rest false w2) as [[b w3] t3].
        cbn. now rewrite orb_true_r.
      * rewrite (IH failed w2).
        destruct (migrateRevisions K m st name rest false w2) as [[b w3] t3].
        reflexivity.
Qed.

(** The loop over a history in two parts is the loop over the first part
    followed by the loop over the second, from the world and with the flag the
    first leaves. *)
Theorem migrateRevisions_app (K : Cluster) m st name h1 h2 :
  forall failed w,
    migrateRevisions K m st name (h1 ++ h2) failed w
    = bind K (migrateRevisions K m st name h1 failed)
        (fun failed' => migrateRevisions K m st name h2 failed') w.
Proof.
  induction h1 as [|r rest IH]; intros failed w.
  - cbn [app migrateRevisions]. now rewrite bind_ret_l.
  - rewrite bind_run. rewrite <- app_comm_cons.
    rewrite !migrateRevisions_cons.
    destruct (storageCreate K st r w) as [w1 [e|]].
    + rewrite (IH true w1), bind_run. reflexivity.
    + destruct (releasesDelete K (actionCfg m) name (Version r) w1)
        as [w2 [e|]].
      * rewrite (IH true w2), bind_run. reflexivity.
      * rewrite (IH failed w2), bind_run. reflexivity.
Qed.

(** ** An unknown [-to] under [namespace] and [all] *)

Lemma not_recognised to :
  ~ recognised to ->
  to <> "configmap" /\ to <> "configmaps" /\ to <> "secret" /\ to <> "secrets".
Proof.
  unfold recognised. intros H. repeat split; intros ->; apply H; auto.
Qed.

Lemma migrateRelease_unknown (K : Cluster) fl m name ns w :
  ~ recognised (to fl) ->
  migrateRelease K fl m name ns w
  = (Some ("unknown resource type " ++ to fl), w, []).
Proof.
  intros H. destruct (not_recognised _ H) as (H1 & H2 & H3 & H4).
  unfold migrateRelease. now rewrite helmStorage_unknown.
Qed.

(** With a [-to] the switch does not know, [migrateAll] still lists, prints
    the same [unknown resource type] line once for every listed release, makes
    no other call, and returns [nil]. *)
Theorem migrateAll_unknown_kind (K : Cluster) fl m w w1 releases :
  ~ recognised (to fl) ->
  listRun K (actionCfg m) true w = (w1, inr releases) ->
  migrateAll K fl m w
  = (None, w1,
     ListRun (actionCfg m) true
       :: map (fun _ => Println ("unknown resource type " ++ to fl)) releases).
Proof.
  intros Hto Hl. unfold migrateAll. unfold bind at 1, call. rewrite Hl.
  assert (Hloop : forall rs w',
    migrateAllLoop K fl m rs w'
    = (tt, w', map (fun _ => Println ("unknown resource type " ++ to fl)) rs)).
  { induction rs as [|r rest IH]; intros w'; [reflexivity|].
    cbn [migrateAllLoop map]. rewrite !bind_run.
    rewrite (migrateRelease_unknown K fl m _ _ w' Hto).
    cbn [value world trace fst snd emit app]. rewrite IH. reflexivity. }
  rewrite bind_run, Hloop. cbn. now rewrite app_nil_r.
Qed.

(** The same under [migrateNamespace], once for every listed release of the
    namespace. *)
Theorem migrateNamespace_unknown_kind (K : Cluster) fl m ns w w1 releases :
  ~ recognised (to fl) ->
  listRun K (actionCfg m) false w = (w1, inr releases) ->
  migrateNamespace K fl m ns w
  = (None, w1,
     ListRun (actionCfg m) false
       :: map (fun _ => Println ("unknown resource type " ++ to fl))
            (filter (fun r => (Namespace r =? ns)%string) releases)).
Proof.
  intros Hto Hl. unfold migrateNamespace. unfold bind at 1, call. rewrite Hl.
  assert (Hloop : forall rs w',
    migrateNamespaceLoop K fl m ns rs w'
    = (tt, w', map (fun _ => Println ("unknown resource type " ++ to fl))
                 (filter (fun r => (Namespace r =? ns)%string) rs))).
  { induction rs as [|r rest IH]; intros w'; [reflexivity|].
    cbn [migrateNamespaceLoop filter].
    destruct (Namespace r =? ns)%string.
    - rewrite !bind_run.
      rewrite (migrateRelease_unknown K fl m _ _ w' Hto).
      cbn [value world trace fst snd emit app map]. rewrite IH. reflexivity.
    - rewrite bind_ret_l. apply IH. }
  rewrite bind_run, Hloop. cbn. now rewrite app_nil_r.
Qed.

(** ** One fetch per listed release *)

Lemma of_release_listings m name ns tr :
  Forall (of_release m name ns) tr -> listings tr = [].
Proof.
  induction 1 as [|ev tr Hev _ IH]; [reflexivity|].
  destruct ev; cbn in *; try assumption. contradiction.
Qed.

Lemma logged_trace (K : Cluster) fl m name ns w :
  fetched (trace (bind K (migrateRelease K fl m name ns)
                    (fun err => match err with
                                | Some e => emit K (Println e)
                                | None => ret K tt
                                end) w))
  = fetched (trace (migrateRelease K fl m name ns w))
  /\ listings (trace (bind K (migrateRelease K fl m name ns)
                        (fun err => match err with
                                    | Some e => emit K (Println e)
                                    | None => ret K tt
                                    end) w)) = [].
Proof.
  split.
  - rewrite bind_run. cbn [trace snd]. rewrite fetched_app.
    destruct (value (migrateRelease K fl m name ns w)); cbn;
      now rewrite app_nil_r.
  - exact (of_release_listings _ _ _ _ (logged_events K fl m name ns w)).
Qed.

(** With a [-to] the switch knows, [migrateAll] fetches the history once for
    every listed release, in the listing's order, whatever became of the
    releases before it; [migrateNamespace] does so for the listed releases of
    the namespace.  Each lists once, [migrateAll] with [AllNamespaces] and
    [migrateNamespace] without. *)
Theorem listing_fetches (K : Cluster) fl m ns w :
  listings (trace (migrateAll K fl m w)) = [true]
  /\ listings (trace (migrateNamespace K fl m ns w)) = [false]
  /\ (forall w1 releases,
        recognised (to fl) ->
        listRun K (actionCfg m) true w = (w1, inr releases) ->
        fetched (trace (migrateAll K fl m w)) = map Name releases)
  /\ (forall w1 releases,
        recognised (to fl) ->
        listRun K (actionCfg m) false w = (w1, inr releases) ->
        fetched (trace (migrateNamespace K fl m ns w))
        = map Name (filter (fun r => (Namespace r =? ns)%string) releases)).
Proof.
  assert (HA : forall rs w',
    listings (trace (migrateAllLoop K fl m rs w')) = []
    /\ (recognised (to fl) ->
        fetched (trace (migrateAllLoop K fl m rs w')) = map Name rs)).
  { induction rs as [|r rest IH]; intros w'; [split; reflexivity|].
    cbn [migrateAllLoop]. rewrite bind_run. cbn [trace snd map].
    rewrite listings_app, fetched_app.
    destruct (logged_trace K fl m (Name r) (Namespace r) w') as [-> ->].
    match goal with
    | |- context [trace (migrateAllLoop K fl m rest ?w'')] =>
      destruct (IH w'') as [-> IHf]
    end.
    split; [reflexivity|]. intros Hto.
    now rewrite IHf, migrateRelease_fetched. }
  assert (HN : forall rs w',
    listings (trace (migrateNamespaceLoop K fl m ns rs w')) = []
    /\ (recognised (to fl) ->
        fetched (trace (migrateNamespaceLoop K fl m ns rs w'))
        = map Name (filter (fun r => (Namespace r =? ns)%string) rs))).
  { induction rs as [|r rest IH]; intros w'; [split; reflexivity|].
    cbn [migrateNamespaceLoop filter].
    destruct (Namespace r =? ns)%string.
    - rewrite bind_run. cbn [trace snd map].
      rewrite listings_app, fetched_app.
      destruct (logged_trace K fl m (Name r) ns w') as [-> ->].
      match goal with
      | |- context [trace (migrateNamespaceLoop K fl m ns rest ?w'')] =>
        destruct (IH w'') as [-> IHf]
      end.
      split; [reflexivity|]. intros Hto.
      now rewrite IHf, migrateRelease_fetched.
    - rewrite bind_ret_l. apply IH. }
  split; [|split; [|split]].
  - unfold migrateAll. unfold bind at 1, call.
    destruct (listRun K (actionCfg m) true w) as [w1 [e|rs]]; [reflexivity|].
    rewrite bind_run. cbn [trace snd listings ret app].
    rewrite listings_app, (proj1 (HA rs w1)). reflexivity.
  - unfold migrateNamespace. unfold bind at 1, call.
    destruct (listRun K (actionCfg m) false w) as [w1 [e|rs]]; [reflexivity|].
    rewrite bind_run. cbn [trace snd listings ret app].
    rewrite listings_app, (proj1 (HN rs w1)). reflexivity.
  - intros w1 rs Hto Hl. unfold migrateAll. unfold bind at 1, call.
    rewrite Hl, bind_run. cbn [trace snd fetched ret app].
    rewrite fetched_app, (proj2 (HA rs w1) Hto). cbn. now rewrite app_nil_r.
  - intros w1 rs Hto Hl. unfold migrateNamespace. unfold bind at 1, call.
    rewrite Hl, bind_run. cbn [trace snd fetched ret app].
    rewrite fetched_app, (proj2 (HN rs w1) Hto). cbn. now rewrite app_nil_r.
Qed.

(** ** [main] and its subcommands *)

(** Under [namespace] and [all] the exit code tells only whether the migrator
    could be built and the releases listed: it is 0 whenever both succeeded,
    whatever the value of [-to] and however many releases failed to
    migrate. *)
Theorem main_listing_exit (K : Cluster) fl args hd w :
  (arg 0 args = "namespace" ->
   value (main K fl args hd w)
   = match NewMigrator K (kubeconfig fl) (namespace fl) hd w with
     | (inl _, _, _) => 1
     | (inr m, w1, _) =>
       match snd (listRun K (actionCfg m) false w1) with
       | inl _ => 1
       | inr _ => 0
       end
     end)
  /\ (arg 0 args = "all" ->
      value (main K fl args hd w)
      = match NewMigrator K (kubeconfig fl) (namespace fl) hd w with
        | (inl _, _, _) => 1
        | (inr m, w1, _) =>
          match snd (listRun K (actionCfg m) true w1) with
          | inl _ => 1
          | inr _ => 0
          end
        end).
Proof.
  split; intros Hsub; unfold main; rewrite Hsub;
    cbn [String.eqb Ascii.eqb Bool.eqb]; unfold bind at 1;
    destruct (NewMigrator K (kubeconfig fl) (namespace fl) hd w)
      as [[[e|m] w1] t1]; try reflexivity.
  - unfold migrateNamespace. unfold bind at 1 2, call.
    destruct (listRun K (actionCfg m) false w1) as [w2 [e|rs]];
      [reflexivity|].
    rewrite bind_run. reflexivity.
  - unfold migrateAll. unfold bind at 1 2, call.
    destruct (listRun K (actionCfg m) true w1) as [w2 [e|rs]];
      [reflexivity|].
    rewrite bind_run. reflexivity.
Qed.

(** Under [release] and [namespace] everything [main] does stays with the
    [-namespace] flag and [$HELM_DRIVER]: each listing, history fetch and
    delete goes through a configuration of that namespace and driver, and each
    write goes to a target driver over that same namespace. *)
Theorem main_one_namespace (K : Cluster) fl args hd w :
  arg 0 args = "release" \/ arg 0 args = "namespace" ->
  Forall (within (namespace fl) hd) (trace (main K fl args hd w)).
Proof.
  assert (Hout : forall tr,
             Forall (fun ev => exists s, ev = Stdout s) tr ->
             Forall (within (namespace fl) hd) tr).
  { intros tr H. eapply Forall_impl; [|exact H]. now intros ev [s ->]. }
  intros Hsub. unfold main.
  assert (Hne : (arg 0 args =? "")%string = false)
    by (destruct Hsub as [-> | ->]; reflexivity).
  rewrite Hne. rewrite bind_run.
  destruct (NewMigrator K (kubeconfig fl) (namespace fl) hd w)
    as [[[e|m] w1] t1] eqn:Hm; cbn [value world trace fst snd].
  - pose proof (NewMigrator_trace K (kubeconfig fl) (namespace fl) hd w) as Ht.
    rewrite Hm in Ht. cbn in Ht. subst t1. cbn.
    constructor; [exact I | constructor].
  - destruct (NewMigrator_inr K _ _ _ _ _ _ _ Hm) as [-> Hcfg].
    cbn [app].
    assert (Hn : cfgNamespace (actionCfg m) = namespace fl)
      by now rewrite Hcfg.
    assert (Hd : cfgDriver (actionCfg m) = hd) by now rewrite Hcfg.
    destruct Hsub as [Hsub | Hsub]; rewrite Hsub;
      cbn [String.eqb Ascii.eqb Bool.eqb].
    + destruct (arg 1 args =? "")%string.
      * cbn. constructor; [exact I | constructor].
      * rewrite bind_run. cbn [trace snd]. apply Forall_app. split.
        -- eapply Forall_impl; [|apply migrateRelease_events].
           intros ev. now apply of_release_within.
        -- apply Hout, exitWith_trace.
    + rewrite bind_run. cbn [trace snd]. apply Forall_app. split.
      * now apply migrateNamespace_within.
      * apply Hout, exitWith_trace.
Qed.

(** [main] reads two positional arguments at most, and under [namespace] and
    [all] only the first: a namespace or release name written after these two
    subcommands changes nothing, the namespace being the [-namespace] flag's
    alone. *)
Theorem main_positional (K : Cluster) fl args hd :
  main K fl args hd = main K fl [arg 0 args; arg 1 args] hd
  /\ (arg 0 args = "namespace" \/ arg 0 args = "all" ->
      main K fl args hd = main K fl [arg 0 args] hd).
Proof.
  split; [reflexivity|].
  intros [H | H]; unfold main; cbn [arg nth]; rewrite H; reflexivity.
Qed.

(** ** These properties on the in-memory clusters *)

(** [secrets] selects the Secrets driver over the namespace asked for. *)
Lemma helmStorage_selects_witness :
  recognised "secrets"
  /\ (exists st, helmStorage Memory.mig "secrets" "prod" = inr st)
  /\ mkStorage (clientset Memory.mig) Secrets "prod"
     = mkStorage (clientset Memory.mig)
         (if ("secrets" =? "configmap")%string
             || ("secrets" =? "configmaps")%string
          then ConfigMaps else Secrets) "prod".
Proof.
  destruct (helmStorage_selects Memory.mig "secrets" "prod") as [Hiff Hst].
  assert (R : recognised "secrets") by (right; right; right; reflexivity).
  split; [exact R|]. split; [exact (proj2 Hiff R)|].
  exact (proj1 (Hst _ eq_refl)).
Defined.

(** A release the cluster does not hold: the error of the fetch, or, with a
    driver that answers with an empty history, [nil]. *)
Lemma migrateRelease_no_history_witness :
  (value (migrateRelease Memory.cluster (Memory.flags "configmap") Memory.mig
            "ghost" "default" Memory.w0) = Some "release: not found"
   /\ world (migrateRelease Memory.cluster (Memory.flags "configmap")
               Memory.mig "ghost" "default" Memory.w0) = Memory.w0
   /\ calls (trace (migrateRelease Memory.cluster (Memory.flags "configmap")
                      Memory.mig "ghost" "default" Memory.w0))
      = [HistoryRun (actionCfg Memory.mig) "ghost"
           (maxHist (Memory.flags "configmap"))])
  /\ (value (migrateRelease Memory.lenient (Memory.flags "configmap")
               Memory.mig "ghost" "default" Memory.w0) = None
      /\ world (migrateRelease Memory.lenient (Memory.flags "configmap")
                  Memory.mig "ghost" "default" Memory.w0) = Memory.w0
      /\ calls (trace (migrateRelease Memory.lenient (Memory.flags "configmap")
                         Memory.mig "ghost" "default" Memory.w0))
         = [HistoryRun (actionCfg Memory.mig) "ghost"
              (maxHist (Memory.flags "configmap"))]).
Proof.
  split.
  - apply (proj1 (migrateRelease_no_history Memory.cluster
                    (Memory.flags "configmap") Memory.mig "ghost" "default"
                    Memory.cm_default Memory.w0 Memory.w0 eq_refl)).
    reflexivity.
  - apply (proj2 (migrateRelease_no_history Memory.lenient
                    (Memory.flags "configmap") Memory.mig "ghost" "default"
                    Memory.cm_default Memory.w0 Memory.w0 eq_refl)).
    reflexivity.
Defined.

(** On [w_ok] nothing stands in the way of [web]. *)
Lemma migrateRelease_nil_iff_witness :
  value (migrateRelease Memory.cluster (Memory.flags "configmap") Memory.mig
           "web" "default" Memory.w_ok) = None.
Proof.
  apply (proj2 (migrateRelease_nil_iff Memory.cluster (Memory.flags "configmap")
                  Memory.mig "web" "default" Memory.w_ok)).
  split; [left; reflexivity|]. split.
  - exists [Memory.web 1; Memory.web 2; Memory.web 3]. reflexivity.
  - vm_compute. reflexivity.
Defined.

(** [-to deployment] under [all]: five releases listed, five lines, [nil]. *)
Lemma migrateAll_unknown_kind_witness :
  migrateAll Memory.cluster (Memory.flags "deployment") Memory.mig Memory.w0
  = (None, Memory.w0,
     ListRun (actionCfg Memory.mig) true
       :: map (fun _ => Println ("unknown resource type "
                                 ++ to (Memory.flags "deployment")))
            [Memory.web 1; Memory.web 2; Memory.web 3; Memory.db1; Memory.api1]).
Proof.
  apply (migrateAll_unknown_kind Memory.cluster (Memory.flags "deployment")
           Memory.mig Memory.w0 Memory.w0).
  - intros [H|[H|[H|H]]]; discriminate H.
  - reflexivity.
Defined.

(** [-to deployment] under [namespace], with a configuration that lists every
    namespace: one line, for the one release of [prod]. *)
Lemma migrateNamespace_unknown_kind_witness :
  migrateNamespace Memory.cluster (Memory.flags "deployment") Memory.mig_any
    "prod" Memory.w0
  = (None, Memory.w0,
     ListRun (actionCfg Memory.mig_any) false
       :: map (fun _ => Println ("unknown resource type "
                                 ++ to (Memory.flags "deployment")))
            (filter (fun r => (Namespace r =? "prod")%string)
               [Memory.web 1; Memory.web 2; Memory.web 3; Memory.db1;
                Memory.api1])).
Proof.
  apply (migrateNamespace_unknown_kind Memory.cluster
           (Memory.flags "deployment") Memory.mig_any "prod" Memory.w0
           Memory.w0).
  - intros [H|[H|[H|H]]]; discriminate H.
  - reflexivity.
Defined.

(** On [w0] the first [web] fails and the others are fetched all the same. *)
Lemma listing_fetches_witness :
  fetched (trace (migrateAll Memory.cluster (Memory.flags "configmap")
                    Memory.mig Memory.w0))
  = map Name [Memory.web 1; Memory.web 2; Memory.web 3; Memory.db1; Memory.api1]
  /\ fetched (trace (migrateNamespace Memory.cluster (Memory.flags "configmap")
                       Memory.mig_any "prod" Memory.w0))
     = map Name (filter (fun r => (Namespace r =? "prod")%string)
                   [Memory.web 1; Memory.web 2; Memory.web 3; Memory.db1;
                    Memory.api1]).
Proof.
  split.
  - apply (proj1 (proj2 (proj2 (listing_fetches Memory.cluster
                                  (Memory.flags "configmap") Memory.mig "default"
                                  Memory.w0))) Memory.w0).
    + left. reflexivity.
    + reflexivity.
  - apply (proj2 (proj2 (proj2 (listing_fetches Memory.cluster
                                  (Memory.flags "configmap") Memory.mig_any
                                  "prod" Memory.w0))) Memory.w0).
    + left. reflexivity.
    + reflexivity.
Defined.

(** [-to deployment all] on [w0] exits with 0, and so does [namespace]. *)
Lemma main_listing_exit_witness :
  value (main Memory.cluster (Memory.flags "deployment") ["all"] "secret"
           Memory.w0) = 0
  /\ value (main Memory.cluster (Memory.flags "configmap") ["namespace"]
              "secret" Memory.w0) = 0.
Proof.
  split.
  - exact (eq_trans
             (proj2 (main_listing_exit Memory.cluster
                       (Memory.flags "deployment") ["all"] "secret" Memory.w0)
                eq_refl) eq_refl).
  - exact (eq_trans
             (proj1 (main_listing_exit Memory.cluster
                       (Memory.flags "configmap") ["namespace"] "secret"
                       Memory.w0) eq_refl) eq_refl).
Defined.

(** [release web] stays within [default]. *)
Lemma main_one_namespace_witness :
  Forall (within "default" "secret")
    (trace (main Memory.cluster (Memory.flags "configmap") ["release"; "web"]
              "secret" Memory.w0)).
Proof.
  apply (main_one_namespace Memory.cluster (Memory.flags "configmap")
           ["release"; "web"] "secret" Memory.w0).
  left. reflexivity.
Defined.

(** [namespace prod] is [namespace]: the argument is not read. *)
Lemma main_positional_witness :
  main Memory.cluster (Memory.flags "configmap") ["namespace"; "prod"] "secret"
  = main Memory.cluster (Memory.flags "configmap")
      [arg 0 ["namespace"; "prod"]] "secret".
Proof.
  apply (proj2 (main_positional Memory.cluster (Memory.flags "configmap")
                  ["namespace"; "prod"] "secret")).
  left. reflexivity.
Defined.
